(** * VoteApp: the poll / vote state engine of [src/src/VoteApp.tsx]

    A shallow embedding of the state-carrying part of the [VoteApp]
    component: the [Poll] and [Option] records, the two pieces of React
    state ([polls], [votes]), the handlers [createPoll], [vote] and
    [deletePoll], the derived views [filtered], [categories], [pct] and
    [timeAgo], the form [PollForm] with its option rows and its gate
    [submit], the local-storage helpers with [ensureSeed] and the seed
    polls, the three effects of the component, and the cookie banner.

    The file has three parts: the program, the notions of the
    specification it is compared with, and the properties.

    Modelling conventions.
    - A JavaScript string is a Rocq [string]; its characters are read as
      the UTF-16 code units U+0000..U+00FF.  [trim] and [toLowerCase] are
      written for that range.
    - A vote count is a JavaScript number holding an integer; it is a [Z],
      on which [+ 1] is exact (integers below 2^53).  The percentage is
      computed in binary64, with Rocq's primitive floats.
    - A [Record<string, string>] is a [gmap string string] of its own
      properties; a key that names a member inherited from
      [Object.prototype] is outside the model.
    - [setPolls] / [setVotes] calls of one handler are queued and applied
      together when the handler has returned, as React does for an event
      handler; a handler reads [polls] and [votes] from the render that
      created it.
    - [uid] and [Date.now] are inputs of a handler run: the sequence of
      values that [Math.random] yields, and the clock.  A timestamp is an
      integer of milliseconds, a [Z].
    - The effects of a render run when that render is on the screen, in
      the order of their declaration, with the [polls] and [votes] of
      that render; what they hand to the setters makes the next render.
    - [JSON.parse] and [JSON.stringify] are parameters of the storage
      helpers; module [JSON] gives one pair of them to compute with.
    - The calls of the remote client ([api.createPoll], [api.vote]) are
      not awaited and touch no state; they are left out. *)

From Stdlib Require Import ZArith List Ascii String Bool Lia.
From Stdlib Require Import PrimFloat FloatOps SpecFloat Uint63.
From stdpp Require Import base option list gmap strings pretty.

Local Open Scope string_scope.
Local Open Scope Z_scope.

(** * The program *)

(** ** Strings *)

Module JsString.

(** [if (s)] on a string: every string but the empty one is truthy. *)
Definition truthy (s : string) : bool :=
  match s with
  | EmptyString => false
  | String _ _ => true
  end.

(** [if (x)] on [string | undefined | null]. *)
Definition truthy_opt (x : option string) : bool :=
  match x with
  | Some s => truthy s
  | None => false
  end.

(** [x || d] on [string | undefined | null]. *)
Definition or_default (x : option string) (d : string) : string :=
  match x with
  | Some s => if truthy s then s else d
  | None => d
  end.

(** WhiteSpace and LineTerminator code units below U+0100: TAB, LF, VT,
    FF, CR, SP and NBSP. *)
Definition is_white_space (c : ascii) : bool :=
  match N_of_ascii c with
  | 9 | 10 | 11 | 12 | 13 | 32 | 160 => true
  | _ => false
  end%N.

Fixpoint trimStart (s : string) : string :=
  match s with
  | EmptyString => EmptyString
  | String c s' => if is_white_space c then trimStart s' else s
  end.

Fixpoint trimEnd (s : string) : string :=
  match s with
  | EmptyString => EmptyString
  | String c s' =>
      match trimEnd s' with
      | EmptyString => if is_white_space c then EmptyString else String c EmptyString
      | t => String c t
      end
  end.

(** [String.prototype.trim]. *)
Definition trim (s : string) : string := trimEnd (trimStart s).

(** Lower-casing of one code unit below U+0100: A-Z, and U+00C0..U+00DE
    but for the multiplication sign U+00D7, move up by 32. *)
Definition lower_char (c : ascii) : ascii :=
  let n := N_of_ascii c in
  if ((65 <=? n) && (n <=? 90)
      || (192 <=? n) && (n <=? 222) && negb (n =? 215))%N
  then ascii_of_N (n + 32)
  else c.

(** [String.prototype.toLowerCase]. *)
Fixpoint toLowerCase (s : string) : string :=
  match s with
  | EmptyString => EmptyString
  | String c s' => String (lower_char c) (toLowerCase s')
  end.

(** [s.includes(sub)]: [sub] occurs in [s] at some position. *)
Fixpoint includes (s sub : string) : bool :=
  String.prefix sub s
  || match s with
     | EmptyString => false
     | String _ s' => includes s' sub
     end.

End JsString.
Import JsString.

(** ** Types (lines 49-50) *)

Record Option := {
  opt_id : string;
  opt_text : string;
  opt_votes : Z
}.

Record Poll := {
  poll_id : string;
  poll_question : string;
  poll_description : option string;
  poll_options : list Option;
  poll_category : string;
  poll_createdAt : Z;
  poll_imageUrl : option string
}.

(** [Partial<Poll>] as [createPoll] reads it: every field may be absent. *)
Record PartialPoll := {
  in_question : option string;
  in_description : option string;
  in_options : option (list Option);
  in_category : option string;
  in_imageUrl : option string
}.

(** ** React state of the component (lines 157-158) *)

Record State := {
  polls : list Poll;
  votes : gmap string string
}.

(** The argument of a state setter: a value, or a function of the
    previous state. *)
Inductive SetStateAction (A : Type) : Type :=
| Value (v : A)
| Updater (f : A -> A).
Arguments Value {A} v.
Arguments Updater {A} f.

Inductive Update : Type :=
| setPolls (a : SetStateAction (list Poll))
| setVotes (a : SetStateAction (gmap string string)).

Definition apply_action {A : Type} (a : SetStateAction A) (prev : A) : A :=
  match a with
  | Value v => v
  | Updater f => f prev
  end.

Definition apply_update (s : State) (u : Update) : State :=
  match u with
  | setPolls a => {| polls := apply_action a (polls s); votes := votes s |}
  | setVotes a => {| polls := polls s; votes := apply_action a (votes s) |}
  end.

(** The queued updates of one handler run, applied in order; the result is
    the state of the next render. *)
Definition commit (s : State) (queue : list Update) : State :=
  fold_left apply_update queue s.

(** ** Handlers (lines 172-187) *)

(** [uid] draws from [Math.random]; [rnd k] is what the [k]-th call of a
    handler run returns.  [now] is what [Date.now()] returns. *)
Definition cleanOptions (rnd : nat -> string) (raw : list Option) : list Option :=
  filter (fun o => (0 < String.length (trim (opt_text o)))%nat)
         (imap (fun i o => {| opt_id := rnd i; opt_text := opt_text o; opt_votes := 0 |}) raw).

Definition newPoll (rnd : nat -> string) (now : Z)
    (question : string) (raw : list Option) (input : PartialPoll) : Poll :=
  {| poll_id := rnd (length raw);
     poll_question := trim question;
     poll_description := trim <$> in_description input;
     poll_options := cleanOptions rnd raw;
     poll_category := or_default (in_category input) "General";
     poll_createdAt := now;
     poll_imageUrl :=
       if truthy_opt (in_imageUrl input) then in_imageUrl input else None |}.

Definition createPoll_queue (rnd : nat -> string) (now : Z)
    (render : State) (input : PartialPoll) : list Update :=
  match in_question input, in_options input with
  | Some question, Some raw =>
      if negb (truthy question) || (length raw <? 2)%nat
      then []
      else [setPolls (Value (newPoll rnd now question raw input :: polls render))]
  | _, _ => []
  end.

Definition createPoll (rnd : nat -> string) (now : Z)
    (input : PartialPoll) (s : State) : State :=
  commit s (createPoll_queue rnd now s input).

Definition bump (optionId : string) (o : Option) : Option :=
  if decide (opt_id o = optionId)
  then {| opt_id := opt_id o; opt_text := opt_text o; opt_votes := opt_votes o + 1 |}
  else o.

Definition vote_poll (pollId optionId : string) (p : Poll) : Poll :=
  if decide (poll_id p ≠ pollId) then p
  else {| poll_id := poll_id p;
          poll_question := poll_question p;
          poll_description := poll_description p;
          poll_options := map (bump optionId) (poll_options p);
          poll_category := poll_category p;
          poll_createdAt := poll_createdAt p;
          poll_imageUrl := poll_imageUrl p |}.

Definition vote_queue (render : State) (pollId optionId : string) : list Update :=
  if truthy_opt (votes render !! pollId) then []
  else [setPolls (Updater (map (vote_poll pollId optionId)));
        setVotes (Updater (fun prev => <[pollId := optionId]> prev))].

Definition vote (pollId optionId : string) (s : State) : State :=
  commit s (vote_queue s pollId optionId).

Definition deletePoll_queue (render : State) (pollId : string) : list Update :=
  [setPolls (Updater (filter (fun p => poll_id p ≠ pollId)));
   setVotes (Value (delete pollId (votes render)))].

Definition deletePoll (pollId : string) (s : State) : State :=
  commit s (deletePoll_queue s pollId).

(** ** The form in front of [createPoll] (lines 308-326) *)

Record PollForm := {
  form_question : string;
  form_description : string;
  form_category : string;
  form_options : list string;
  form_imageUrl : string;
  form_imagePreview : string
}.

Definition cleaned (f : PollForm) : list string :=
  filter (fun o => truthy o = true) (map trim (form_options f)).

(** [submit]: [None] when it returns before calling [onSubmit], else the
    argument handed to [onSubmit], which is [createPoll] (line 245). *)
Definition submit (f : PollForm) : option PartialPoll :=
  if negb (truthy (trim (form_question f))) || (length (cleaned f) <? 2)%nat
  then None
  else Some
    {| in_question := Some (form_question f);
       in_description := Some (form_description f);
       in_options :=
         Some (map (fun text => {| opt_id := ""; opt_text := text; opt_votes := 0 |})
                   (cleaned f));
       in_category := Some (form_category f);
       in_imageUrl :=
         Some (if truthy (form_imageUrl f) then form_imageUrl f
               else form_imagePreview f) |}.

(** Pressing "Create poll": [submit], then [createPoll] on what it passes. *)
Definition submit_createPoll (rnd : nat -> string) (now : Z)
    (f : PollForm) (s : State) : State :=
  match submit f with
  | Some input => createPoll rnd now input s
  | None => s
  end.

(** ** The fields of the form (lines 309-319) *)

(** The form as [useState] creates it. *)
Definition initial_form : PollForm :=
  {| form_question := "";
     form_description := "";
     form_category := "Politics";
     form_options := ["Option A"; "Option B"];
     form_imageUrl := "";
     form_imagePreview := "" |}.

(** The updaters that [addOption], [removeOption] and [updateOption] hand
    to [setOptions]. *)
Definition addOption (o : list string) : list string := (o ++ [""])%list.

Definition removeOption (i : nat) (o : list string) : list string :=
  map snd (filter (fun x => fst x ≠ i) (imap pair o)).

Definition updateOption (i : nat) (text : string) (o : list string) : list string :=
  imap (fun idx v => if decide (idx = i) then text else v) o.

(** [submit] on the form itself: nothing when it returns early, else the
    five setters of line 325; the category is not among them. *)
Definition submit_form (f : PollForm) : PollForm :=
  match submit f with
  | None => f
  | Some _ =>
      {| form_question := "";
         form_description := "";
         form_category := form_category f;
         form_options := ["Option A"; "Option B"];
         form_imageUrl := "";
         form_imagePreview := "" |}
  end.

Definition with_options (f : PollForm) (o : list string) : PollForm :=
  {| form_question := form_question f;
     form_description := form_description f;
     form_category := form_category f;
     form_options := o;
     form_imageUrl := form_imageUrl f;
     form_imagePreview := form_imagePreview f |}.

(** What the user does to the form: typing into a field (the image field
    sets the URL and the preview together, line 347), a file read by
    [handleFile] (line 319), the option buttons, and "Create poll". *)
Inductive FormEvent : Type :=
| TypeQuestion (text : string)
| TypeDescription (text : string)
| TypeCategory (text : string)
| TypeImageUrl (text : string)
| FileLoaded (result : string)
| AddOption
| RemoveOption (i : nat)
| UpdateOption (i : nat) (text : string)
| Submit.

Definition form_next (f : PollForm) (e : FormEvent) : PollForm :=
  match e with
  | TypeQuestion text =>
      {| form_question := text;
         form_description := form_description f;
         form_category := form_category f;
         form_options := form_options f;
         form_imageUrl := form_imageUrl f;
         form_imagePreview := form_imagePreview f |}
  | TypeDescription text =>
      {| form_question := form_question f;
         form_description := text;
         form_category := form_category f;
         form_options := form_options f;
         form_imageUrl := form_imageUrl f;
         form_imagePreview := form_imagePreview f |}
  | TypeCategory text =>
      {| form_question := form_question f;
         form_description := form_description f;
         form_category := text;
         form_options := form_options f;
         form_imageUrl := form_imageUrl f;
         form_imagePreview := form_imagePreview f |}
  | TypeImageUrl text | FileLoaded text =>
      {| form_question := form_question f;
         form_description := form_description f;
         form_category := form_category f;
         form_options := form_options f;
         form_imageUrl := text;
         form_imagePreview := text |}
  | AddOption => with_options f (addOption (form_options f))
  | RemoveOption i => with_options f (removeOption i (form_options f))
  | UpdateOption i text => with_options f (updateOption i text (form_options f))
  | Submit => submit_form f
  end.

(** The controls of an event are on the screen: an option row has its
    input, and it has its remove button when there are more than two rows
    (line 360). *)
Definition offered (f : PollForm) (e : FormEvent) : Prop :=
  match e with
  | RemoveOption i =>
      (2 < length (form_options f))%nat /\ (i < length (form_options f))%nat
  | UpdateOption i _ => (i < length (form_options f))%nat
  | _ => True
  end.

Inductive form_reachable : PollForm -> Prop :=
| form_reachable_initial : form_reachable initial_form
| form_reachable_next f e :
    form_reachable f -> offered f e -> form_reachable (form_next f e).

(** Pressing "Create poll" with the form [f] in the state [s]: the form
    and the state afterwards. *)
Definition press_create (rnd : nat -> string) (now : Z)
    (fs : PollForm * State) : PollForm * State :=
  (submit_form (fst fs), submit_createPoll rnd now (fst fs) (snd fs)).

(** ** Derived views *)

(** [filtered] (line 170). *)
Definition filtered (ps : list Poll) (categoryFilter query : string) : list Poll :=
  filter (fun p => includes (toLowerCase (poll_question p)) (toLowerCase query) = true)
    (filter (fun p => categoryFilter = "All" \/ poll_category p = categoryFilter) ps).

(** [totalVotes] (line 377). *)
Definition totalVotes (p : Poll) : Z :=
  fold_left (fun a b => a + opt_votes b) (poll_options p) 0.

Module Number.



End Number.


(** [timeAgo] (line 62), the age shown on a card (line 386), with what
    [Date.now()] returns as first argument.  Timestamps are integers of
    milliseconds, on which the subtraction is exact and [Math.floor] of a
    quotient is the floor of the exact quotient; [`${n}`] writes such a
    number in decimal digits, with a minus sign when it is negative. *)
Definition timeAgo (now ts : Z) : string :=
  let s := (now - ts) / 1000 in
  if s <? 60 then pretty s +:+ "s ago"
  else
    let m := s / 60 in
    if m <? 60 then pretty m +:+ "m ago"
    else
      let h := m / 60 in
      if h <? 24 then pretty h +:+ "h ago"
      else
        let d := h / 24 in
        pretty d +:+ "d ago".

(** [set.add(value)] on a [Set] of strings, its values in the order of
    their insertion, which is the order [Array.from] lists them in. *)
Definition Set_add (set : list string) (value : string) : list string :=
  if decide (value ∈ set) then set else (set ++ [value])%list.

(** [categories] (line 169), the tabs above the list. *)
Definition categories (ps : list Poll) : list string :=
  fold_left (fun set p => Set_add set (poll_category p)) ps ["All"].

(** ** The component as a state machine *)

Inductive Event : Type :=
| CreatePoll (rnd : nat -> string) (now : Z) (input : PartialPoll)
| Vote (pollId optionId : string)
| DeletePoll (pollId : string).

(** What the handler of an event queues, run in the render [render]. *)
Definition handler (render : State) (e : Event) : list Update :=
  match e with
  | CreatePoll rnd now input => createPoll_queue rnd now render input
  | Vote pollId optionId => vote_queue render pollId optionId
  | DeletePoll pollId => deletePoll_queue render pollId
  end.

Definition next (s : State) (e : Event) : State := commit s (handler s e).


Definition initial : State := {| polls := []; votes := ∅ |}.

Inductive reachable : State -> Prop :=
| reachable_initial : reachable initial
| reachable_next s e : reachable s -> reachable (next s e).

(** The component as the user drives it: the form, the vote buttons and
    the delete menu. *)
Inductive UiEvent : Type :=
| UiSubmit (rnd : nat -> string) (now : Z) (f : PollForm)
| UiVote (pollId optionId : string)
| UiDelete (pollId : string).

Definition ui_next (s : State) (e : UiEvent) : State :=
  match e with
  | UiSubmit rnd now f => submit_createPoll rnd now f s
  | UiVote pollId optionId => vote pollId optionId s
  | UiDelete pollId => deletePoll pollId s
  end.

(** ** Sequences of events *)

(** The state after a sequence of [vote] calls, each handled in the
    render that the one before made. *)
Definition vote_all (ballots : list (string * string)) (s : State) : State :=
  fold_left (fun st b => vote (fst b) (snd b) st) ballots s.

(** The events that the page offers in the state [s]: the form; a vote
    button of a card, which exists for each option of a listed poll while
    [votes[poll.id]] is falsy (lines 251, 406-410) and calls
    [vote(poll.id, opt.id)]; and the delete entry of a card's menu, which
    calls [deletePoll(poll.id)] (lines 251, 393). *)
Inductive clicked (s : State) : UiEvent -> Prop :=
| clicked_submit rnd now f : clicked s (UiSubmit rnd now f)
| clicked_vote p o :
    p ∈ polls s -> o ∈ poll_options p ->
    truthy_opt (votes s !! poll_id p) = false ->
    clicked s (UiVote (poll_id p) (opt_id o))
| clicked_delete p :
    p ∈ polls s -> clicked s (UiDelete (poll_id p)).

(** A sequence of events, each offered in the state the ones before it
    have made. *)
Inductive clicks : State -> list UiEvent -> Prop :=
| clicks_nil s : clicks s []
| clicks_cons s e es : clicked s e -> clicks (ui_next s e) es -> clicks s (e :: es).

(** ** Local storage helpers (lines 53-58) *)

(** A value that [JSON.parse] returns.  Numbers are the integers; the
    members of an object are in the order of its keys. *)
#[local] Unset Elimination Schemes.
Inductive json : Type :=
| JNull
| JBool (b : bool)
| JNumber (n : Z)
| JString (s : string)
| JArray (items : list json)
| JObject (members : list (string * json)).
#[local] Set Elimination Schemes.

Definition LS_POLLS_KEY : string := "voteapp_polls_v1".
Definition LS_VOTES_KEY : string := "voteapp_votes_v1".

(** A [Poll[]] and a [Record<string, string>] as JavaScript values, with
    the properties [JSON.stringify] writes: an [undefined] description is
    left out, a [null] imageUrl is written. *)
Definition json_of_Option (o : Option) : json :=
  JObject [("id", JString (opt_id o)); ("text", JString (opt_text o));
           ("votes", JNumber (opt_votes o))].

Definition json_of_Poll (p : Poll) : json :=
  JObject
    ([("id", JString (poll_id p)); ("question", JString (poll_question p))]
     ++ match poll_description p with
        | Some d => [("description", JString d)]
        | None => []
        end
     ++ [("options", JArray (map json_of_Option (poll_options p)));
         ("category", JString (poll_category p));
         ("createdAt", JNumber (poll_createdAt p));
         ("imageUrl", match poll_imageUrl p with
                      | Some u => JString u
                      | None => JNull
                      end)]).

Definition json_of_polls (ps : list Poll) : json := JArray (map json_of_Poll ps).

Definition json_of_votes (v : gmap string string) : json :=
  JObject (map (fun kv => (fst kv, JString (snd kv))) (map_to_list v)).

Section LocalStorage.

(** [JSON.parse], [None] when it throws, and [JSON.stringify] are the
    platform's; the helpers are written over any such pair. *)
Variable JSON_parse : string -> option json.
Variable JSON_stringify : json -> string.

(** [loadPolls] returns what [JSON.parse] returns: the cast [as Poll[]]
    checks nothing at run time. *)
Definition loadPolls (localStorage : gmap string string) : json :=
  match localStorage !! LS_POLLS_KEY with
  | Some raw =>
      if negb (truthy raw) then JArray []
      else match JSON_parse raw with
           | Some v => v
           | None => JArray []
           end
  | None => JArray []
  end.

Definition savePolls (ps : list Poll) (localStorage : gmap string string)
  : gmap string string :=
  <[LS_POLLS_KEY := JSON_stringify (json_of_polls ps)]> localStorage.

Definition loadVotes (localStorage : gmap string string) : json :=
  match localStorage !! LS_VOTES_KEY with
  | Some raw =>
      if negb (truthy raw) then JObject []
      else match JSON_parse raw with
           | Some v => v
           | None => JObject []
           end
  | None => JObject []
  end.

Definition saveVotes (v : gmap string string) (localStorage : gmap string string)
  : gmap string string :=
  <[LS_VOTES_KEY := JSON_stringify (json_of_votes v)]> localStorage.


Definition valid_vote_data (raw : string) : Prop :=
  exists v, JSON_parse raw = Some (json_of_votes v).

End LocalStorage.

(** ** Reading a property of a parsed value *)

(** [if (x)] on a value, [None] being [undefined]. *)
Definition ToBoolean (x : option json) : bool :=
  match x with
  | None | Some JNull => false
  | Some (JBool b) => b
  | Some (JNumber n) => negb (n =? 0)
  | Some (JString s) => truthy s
  | Some (JArray _) | Some (JObject _) => true
  end.

(** The member [key] of an object; of two members with one key, the later
    one counts. *)
Fixpoint get_member (key : string) (members : list (string * json)) : option json :=
  match members with
  | [] => None
  | (k, v) :: rest =>
      match get_member key rest with
      | Some v' => Some v'
      | None => if decide (k = key) then Some v else None
      end
  end.

(** [x.length]: [None] when the read throws (a TypeError, on [null]),
    else the number of items of an array, the number of code units of a
    string, the member "length" of an object, and [undefined] on a number
    or a boolean. *)
Definition get_length (x : json) : option (option json) :=
  match x with
  | JNull => None
  | JBool _ | JNumber _ => Some None
  | JString s => Some (Some (JNumber (Z.of_nat (String.length s))))
  | JArray items => Some (Some (JNumber (Z.of_nat (length items))))
  | JObject members => Some (get_member "length" members)
  end.

(** ** Seed polls (lines 73-78) *)

(** [seedPolls] is evaluated once, when the module is loaded: [rnd k] is
    what the [k]-th call of [uid] returned then, [clock k] what the
    [k]-th call of [Date.now]. *)
Definition seedPolls (rnd : nat -> string) (clock : nat -> Z) : list Poll :=
  [ {| poll_id := rnd 0%nat;
       poll_question := "Who will win the national election?";
       poll_description :=
         Some "Community prediction for the upcoming general election.";
       poll_options :=
         [ {| opt_id := rnd 1%nat; opt_text := "Party A"; opt_votes := 42 |};
           {| opt_id := rnd 2%nat; opt_text := "Party B"; opt_votes := 58 |};
           {| opt_id := rnd 3%nat; opt_text := "Undecided"; opt_votes := 11 |} ];
       poll_category := "Politics";
       poll_createdAt := clock 0%nat - 1000 * 60 * 60 * 6;
       poll_imageUrl :=
         Some "https://images.unsplash.com/photo-1541872703-74c5e44368b5?w=1200&q=80&auto=format&fit=crop" |};
    {| poll_id := rnd 4%nat;
       poll_question := "Best smartphone of 2025?";
       poll_description :=
         Some "Vote for the device that impressed you most this year.";
       poll_options :=
         [ {| opt_id := rnd 5%nat; opt_text := "Pixel"; opt_votes := 23 |};
           {| opt_id := rnd 6%nat; opt_text := "iPhone"; opt_votes := 31 |};
           {| opt_id := rnd 7%nat; opt_text := "Galaxy"; opt_votes := 19 |} ];
       poll_category := "Tech";
       poll_createdAt := clock 1%nat - 1000 * 60 * 60 * 30;
       poll_imageUrl :=
         Some "https://images.unsplash.com/photo-1511707171634-5f897ff02aa9?w=1200&q=80&auto=format&fit=crop" |};
    {| poll_id := rnd 8%nat;
       poll_question := "Which club wins the league?";
       poll_description := Some "Prediction market style fan poll.";
       poll_options :=
         [ {| opt_id := rnd 9%nat; opt_text := "Club X"; opt_votes := 12 |};
           {| opt_id := rnd 10%nat; opt_text := "Club Y"; opt_votes := 28 |};
           {| opt_id := rnd 11%nat; opt_text := "Club Z"; opt_votes := 21 |} ];
       poll_category := "Sports";
       poll_createdAt := clock 2%nat - 1000 * 60 * 60 * 90;
       poll_imageUrl :=
         Some "https://images.unsplash.com/photo-1517927033932-b3d18e61fb3a?w=1200&q=80&auto=format&fit=crop" |} ].

Section Effects.

Variable JSON_parse : string -> option json.
Variable JSON_stringify : json -> string.
Variable rnd : nat -> string.
Variable clock : nat -> Z.

(** [ensureSeed]: [None] when it throws, else what it returns and the
    store it leaves. *)
Definition ensureSeed (localStorage : gmap string string)
  : option (json * gmap string string) :=
  let existing := loadPolls JSON_parse localStorage in
  match get_length existing with
  | None => None
  | Some len =>
      if ToBoolean len then Some (existing, localStorage)
      else Some (json_of_polls (seedPolls rnd clock),
                 savePolls JSON_stringify (seedPolls rnd clock) localStorage)
  end.

(** ** The effects of the component (lines 165-167) *)

(** The effects of the first render, run in the order of their
    declaration once that render is on the screen; [polls] and [votes]
    are those of that render, the [initial] ones.  [None] when
    [ensureSeed] throws; else the values handed to [setPolls] and to
    [setVotes], which make the next render, and the store the three
    effects leave. *)
Definition mount_effects (localStorage : gmap string string)
  : option (json * json * gmap string string) :=
  match ensureSeed localStorage with
  | None => None
  | Some (seeded, ls1) =>
      let ledger := loadVotes JSON_parse ls1 in
      let ls2 := savePolls JSON_stringify (polls initial) ls1 in
      let ls3 := saveVotes JSON_stringify (votes initial) ls2 in
      Some (seeded, ledger, ls3)
  end.

(** Under [React.StrictMode] ([src/main.tsx], line 7) a development
    build runs the effects of a freshly mounted component a second time,
    before the next render: both passes see the first render's [polls]
    and [votes], the second one the store the first one left, and the
    values the second pass hands to the setters replace those of the
    first. *)
Definition strict_mount_effects (localStorage : gmap string string)
  : option (json * json * gmap string string) :=
  match mount_effects localStorage with
  | None => None
  | Some (_, _, ls) => mount_effects ls
  end.

Definition queues_setPolls (queue : list Update) : bool :=
  existsb (fun u => match u with setPolls _ => true | setVotes _ => false end) queue.

Definition queues_setVotes (queue : list Update) : bool :=
  existsb (fun u => match u with setVotes _ => true | setPolls _ => false end) queue.

(** The effects after a later render.  The effect of line 166 runs when
    [polls] is not the array of the render before, the one of line 167
    when [votes] is not the object of the render before.  Every
    [setPolls] of the handlers makes a new array (the literal of line
    176, the [map] of line 182, the [filter] of line 187) and every
    [setVotes] a new object (the literals of lines 183 and 187), so each
    effect runs exactly when the handler has called its setter. *)
Definition persist_effects (queue : list Update) (s : State)
    (localStorage : gmap string string) : gmap string string :=
  let ls1 := if queues_setPolls queue
             then savePolls JSON_stringify (polls s) localStorage
             else localStorage in
  if queues_setVotes queue then saveVotes JSON_stringify (votes s) ls1 else ls1.

End Effects.

(** The component with its store. *)
Record App := {
  app_state : State;
  app_store : gmap string string
}.

Definition app_next (JSON_stringify : json -> string) (a : App) (e : Event) : App :=
  let queue := handler (app_state a) e in
  let s := commit (app_state a) queue in
  {| app_state := s;
     app_store := persist_effects JSON_stringify queue s (app_store a) |}.

(** ** The cookie banner (lines 81-92) *)

Definition COOKIE_KEY : string := "va_cookie_ok".

(** [show] once the effect of the banner has run: the banner starts
    hidden and is shown when the store has no truthy flag. *)
Definition CookieBanner_show (localStorage : gmap string string) : bool :=
  if truthy_opt (localStorage !! COOKIE_KEY) then false else true.

Inductive CookieChoice : Type := Dismiss | Accept.

(** The two buttons: the flag they store; both hide the banner. *)
Definition CookieBanner_click (c : CookieChoice)
    (localStorage : gmap string string) : gmap string string :=
  <[COOKIE_KEY := match c with Dismiss => "dismissed" | Accept => "true" end]>
    localStorage.

(** The writes to the store that the program contains: [savePolls],
    [saveVotes] and the two buttons of the banner; it removes nothing. *)
Inductive StoreWrite : Type :=
| WritePolls (ps : list Poll)
| WriteVotes (ledger : gmap string string)
| ClickBanner (c : CookieChoice).

Definition store_write (JSON_stringify : json -> string)
    (localStorage : gmap string string) (w : StoreWrite) : gmap string string :=
  match w with
  | WritePolls ps => savePolls JSON_stringify ps localStorage
  | WriteVotes ledger => saveVotes JSON_stringify ledger localStorage
  | ClickBanner c => CookieBanner_click c localStorage
  end.

(** ** A JSON reader and writer

    An instance of the platform's pair, for evaluating the helpers on
    concrete texts: the JSON grammar with integer numbers, and with the
    string escapes of code units below U+0100.  A number with a fraction
    or an exponent is outside this instance. *)

Module JSON.

Definition quotation_mark : ascii := ascii_of_nat 34.
Definition reverse_solidus : ascii := ascii_of_nat 92.

Definition hex_digit (n : N) : ascii :=
  ascii_of_N (if (n <? 10)%N then 48 + n else 87 + n).

(** The writer puts each text in front of a given rest of the output. *)
Definition write_char (c : ascii) (rest : string) : string :=
  let n := N_of_ascii c in
  match n with
  | 34 => String reverse_solidus (String quotation_mark rest)
  | 92 => String reverse_solidus (String reverse_solidus rest)
  | 8 => String reverse_solidus (String "b" rest)
  | 9 => String reverse_solidus (String "t" rest)
  | 10 => String reverse_solidus (String "n" rest)
  | 12 => String reverse_solidus (String "f" rest)
  | 13 => String reverse_solidus (String "r" rest)
  | _ =>
      if (n <? 32)%N
      then String reverse_solidus
             (String "u" (String "0" (String "0"
                (String (hex_digit (n / 16)) (String (hex_digit (n mod 16)) rest)))))
      else String c rest
  end%N.

Fixpoint write_chars (s : string) (rest : string) : string :=
  match s with
  | EmptyString => rest
  | String c s' => write_char c (write_chars s' rest)
  end.

Definition write_string (s : string) (rest : string) : string :=
  String quotation_mark (write_chars s (String quotation_mark rest)).

Definition write_int (n : Z) (rest : string) : string :=
  match n with
  | Z0 => String "0" rest
  | Zpos p => pretty_N_go (Npos p) rest
  | Zneg p => String "-" (pretty_N_go (Npos p) rest)
  end.

Fixpoint write_word (word rest : string) : string :=
  match word with
  | EmptyString => rest
  | String c word' => String c (write_word word' rest)
  end.

Fixpoint write (v : json) (rest : string) : string :=
  match v with
  | JNull => write_word "null" rest
  | JBool b => write_word (if b then "true" else "false") rest
  | JNumber n => write_int n rest
  | JString s => write_string s rest
  | JArray items =>
      String "["
        match items with
        | [] => String "]" rest
        | x :: xs =>
            write x (fold_right (fun y out => String "," (write y out))
                                (String "]" rest) xs)
        end
  | JObject members =>
      String "{"
        match members with
        | [] => String "}" rest
        | (k, x) :: ms =>
            write_string k
              (String ":"
                 (write x
                    (fold_right
                       (fun kv out =>
                          String "," (write_string (fst kv)
                                        (String ":" (write (snd kv) out))))
                       (String "}" rest) ms)))
        end
  end.

(** [JSON.stringify]: no white space between the tokens. *)
Definition stringify (v : json) : string := write v "".

Definition is_ws (c : ascii) : bool :=
  match N_of_ascii c with
  | 9 | 10 | 13 | 32 => true
  | _ => false
  end%N.

Fixpoint skip_ws (s : string) : string :=
  match s with
  | EmptyString => EmptyString
  | String c s' => if is_ws c then skip_ws s' else s
  end.

Definition digit_value (c : ascii) : option Z :=
  let n := N_of_ascii c in
  if ((48 <=? n) && (n <=? 57))%N then Some (Z.of_N n - 48) else None.

Definition hex_value (c : ascii) : option N :=
  let n := N_of_ascii c in
  if ((48 <=? n) && (n <=? 57))%N then Some (n - 48)%N
  else if ((97 <=? n) && (n <=? 102))%N then Some (n - 87)%N
  else if ((65 <=? n) && (n <=? 70))%N then Some (n - 55)%N
  else None.

Fixpoint read_digits (s : string) (acc : Z) : Z * string :=
  match s with
  | EmptyString => (acc, s)
  | String c s' =>
      match digit_value c with
      | Some d => read_digits s' (10 * acc + d)
      | None => (acc, s)
      end
  end.

(** "0", or a digit from 1 to 9 and more digits. *)
Definition read_nat (s : string) : option (Z * string) :=
  match s with
  | String c rest =>
      match digit_value c with
      | Some 0 => Some (0, rest)
      | Some d => Some (read_digits rest d)
      | None => None
      end
  | EmptyString => None
  end.

(** [int]: the digits, with a minus sign in front or not. *)
Definition read_int (s : string) : option (Z * string) :=
  match s with
  | String "-" s' =>
      match read_nat s' with
      | Some (n, rest) => Some (- n, rest)
      | None => None
      end
  | _ => read_nat s
  end.

(** The characters of a string after its opening quotation mark. *)
Fixpoint read_chars (s : string) : option (string * string) :=
  match s with
  | EmptyString => None
  | String c s' =>
      if ascii_dec c quotation_mark then Some ("", s')
      else if ascii_dec c reverse_solidus then
        match s' with
        | String "u" (String h1 (String h2 (String h3 (String h4 rest)))) =>
            match hex_value h1, hex_value h2, hex_value h3, hex_value h4 with
            | Some 0%N, Some 0%N, Some a, Some b =>
                match read_chars rest with
                | Some (t, rest') => Some (String (ascii_of_N (16 * a + b)) t, rest')
                | None => None
                end
            | _, _, _, _ => None
            end
        | String e rest =>
            let unescaped :=
              if ascii_dec e quotation_mark then Some quotation_mark
              else if ascii_dec e reverse_solidus then Some reverse_solidus
              else match e with
                   | "/" => Some "/"
                   | "b" => Some (ascii_of_nat 8)
                   | "t" => Some (ascii_of_nat 9)
                   | "n" => Some (ascii_of_nat 10)
                   | "f" => Some (ascii_of_nat 12)
                   | "r" => Some (ascii_of_nat 13)
                   | _ => None
                   end%char in
            match unescaped, read_chars rest with
            | Some c', Some (t, rest') => Some (String c' t, rest')
            | _, _ => None
            end
        | EmptyString => None
        end
      else if (N_of_ascii c <? 32)%N then None
      else match read_chars s' with
           | Some (t, rest') => Some (String c t, rest')
           | None => None
           end
  end.

Fixpoint strip_prefix (word s : string) : option string :=
  match word, s with
  | EmptyString, _ => Some s
  | String a word', String b s' =>
      if ascii_dec a b then strip_prefix word' s' else None
  | String _ _, EmptyString => None
  end.

Definition read_literal (word : string) (v : json) (s : string)
  : option (json * string) :=
  match strip_prefix word s with
  | Some rest => Some (v, rest)
  | None => None
  end.

Fixpoint read_value (fuel : nat) (s : string) : option (json * string) :=
  match fuel with
  | O => None
  | S fuel' =>
      match skip_ws s with
      | EmptyString => None
      | String c s' as t =>
          if (c =? "[")%char then
            match skip_ws s' with
            | EmptyString => None
            | String c' rest as t' =>
                if (c' =? "]")%char then Some (JArray [], rest)
                else read_elements fuel' t' []
            end
          else if (c =? "{")%char then
            match skip_ws s' with
            | EmptyString => None
            | String c' rest as t' =>
                if (c' =? "}")%char then Some (JObject [], rest)
                else read_members fuel' t' []
            end
          else if (c =? "n")%char then read_literal "null" JNull t
          else if (c =? "t")%char then read_literal "true" (JBool true) t
          else if (c =? "f")%char then read_literal "false" (JBool false) t
          else if (c =? quotation_mark)%char then
            match read_chars s' with
            | Some (str, rest) => Some (JString str, rest)
            | None => None
            end
          else
            match read_int t with
            | Some (n, rest) => Some (JNumber n, rest)
            | None => None
            end
      end
  end
with read_elements (fuel : nat) (s : string) (seen : list json)
  : option (json * string) :=
  match fuel with
  | O => None
  | S fuel' =>
      match read_value fuel' s with
      | Some (v, rest) =>
          match skip_ws rest with
          | String "," rest' => read_elements fuel' rest' (v :: seen)
          | String "]" rest' => Some (JArray (rev (v :: seen)), rest')
          | _ => None
          end
      | None => None
      end
  end
with read_members (fuel : nat) (s : string) (seen : list (string * json))
  : option (json * string) :=
  match fuel with
  | O => None
  | S fuel' =>
      match skip_ws s with
      | String c s' =>
          if ascii_dec c quotation_mark then
            match read_chars s' with
            | Some (key, rest) =>
                match skip_ws rest with
                | String ":" rest' =>
                    match read_value fuel' rest' with
                    | Some (v, rest'') =>
                        match skip_ws rest'' with
                        | String "," r => read_members fuel' r ((key, v) :: seen)
                        | String "}" r => Some (JObject (rev ((key, v) :: seen)), r)
                        | _ => None
                        end
                    | None => None
                    end
                | _ => None
                end
            | None => None
            end
          else None
      | EmptyString => None
      end
  end.

(** [JSON.parse]: one value, with nothing but white space after it. *)
Definition parse (text : string) : option json :=
  match read_value (2 * String.length text + 2) text with
  | Some (v, rest) =>
      match skip_ws rest with
      | EmptyString => Some v
      | String _ _ => None
      end
  | None => None
  end.

End JSON.

(** * The notions of the specification *)

(** ** Percentages *)



(** ** Filtering *)

(** The spec's reading of the search: [searchText] occurs in [question]
    when both are lower-cased. *)
Definition case_insensitive_substring (searchText question : string) : Prop :=
  exists l r, toLowerCase question = l +:+ toLowerCase searchText +:+ r.

(** The spec's condition for keeping a poll. *)
Definition keeps (categoryFilter searchText : string) (p : Poll) : Prop :=
  (categoryFilter = "All" \/ poll_category p = categoryFilter)
  /\ (searchText = "" \/ case_insensitive_substring searchText (poll_question p)).

(** ** Well-formed polls *)

Definition well_formed (p : Poll) : Prop :=
  (2 <= length (poll_options p))%nat
  /\ NoDup (map opt_id (poll_options p))
  /\ poll_question p ≠ ""
  /\ Forall (fun o => trim (opt_text o) = opt_text o /\ opt_text o ≠ ""
                      /\ 0 <= opt_votes o) (poll_options p).

(** The draws of [uid] that become option ids of one submission are
    pairwise different. *)
Definition fresh_draws (e : UiEvent) : Prop :=
  match e with
  | UiSubmit rnd _ f => NoDup (map rnd (seq 0 (length (cleaned f))))
  | _ => True
  end.

Inductive ui_reachable : State -> Prop :=
| ui_reachable_initial : ui_reachable initial
| ui_reachable_next s e :
    ui_reachable s -> fresh_draws e -> ui_reachable (ui_next s e).

(** ** Tabs *)

(** The values of a list, each once, in the order of their first
    occurrences. *)
Fixpoint first_occurrences (l : list string) : list string :=
  match l with
  | [] => []
  | x :: l' => x :: filter (fun y => y ≠ x) (first_occurrences l')
  end.

(** ** The ledger and the collection *)

(** Every entry of the ledger names a poll of the collection and one of
    its options. *)
Definition ledger_consistent (s : State) : Prop :=
  forall pollId optionId, votes s !! pollId = Some optionId ->
    exists p, p ∈ polls s /\ poll_id p = pollId
              /\ optionId ∈ map opt_id (poll_options p).

(** ** The store and the state *)

(** The store holds the text of the state's polls and of its ledger. *)
Definition in_sync (JSON_stringify : json -> string) (s : State)
    (localStorage : gmap string string) : Prop :=
  localStorage !! LS_POLLS_KEY = Some (JSON_stringify (json_of_polls (polls s)))
  /\ localStorage !! LS_VOTES_KEY = Some (JSON_stringify (json_of_votes (votes s))).

(** The component at work: mounted on a store whose texts are those of a
    Poll Collection and of a Vote Ledger, which the render after the
    first one shows and its effects save; then handling events. *)
Inductive running (JSON_parse : string -> option json)
    (JSON_stringify : json -> string) (rnd : nat -> string) (clock : nat -> Z)
  : App -> Prop :=
| running_mount localStorage s ls :
    mount_effects JSON_parse JSON_stringify rnd clock localStorage
    = Some (json_of_polls (polls s), json_of_votes (votes s), ls) ->
    running JSON_parse JSON_stringify rnd clock
      {| app_state := s;
         app_store := saveVotes JSON_stringify (votes s)
                        (savePolls JSON_stringify (polls s) ls) |}
| running_next a e :
    running JSON_parse JSON_stringify rnd clock a ->
    running JSON_parse JSON_stringify rnd clock (app_next JSON_stringify a e).

(** ** Example data *)

(** Example states used below: one poll "p" with the options "o1" and
    "o2", every count 0. *)
Definition example_poll : Poll :=
  {| poll_id := "p"; poll_question := "Q"; poll_description := None;
     poll_options := [ {| opt_id := "o1"; opt_text := "a"; opt_votes := 0 |};
                       {| opt_id := "o2"; opt_text := "b"; opt_votes := 0 |} ];
     poll_category := "General"; poll_createdAt := 0; poll_imageUrl := None |}.

Definition example_state (ledger : gmap string string) : State :=
  {| polls := [example_poll]; votes := ledger |}.

(** [createPoll({question, options})], the options given by their text. *)
Definition draft (question : string) (options : list string) : PartialPoll :=
  {| in_question := Some question;
     in_description := None;
     in_options :=
       Some (map (fun text => {| opt_id := ""; opt_text := text; opt_votes := 0 |})
                 options);
     in_category := None;
     in_imageUrl := None |}.

(** The form filled in with the question "Q" and the options "a", "b"
    and an empty third one. *)
Definition example_form : PollForm :=
  {| form_question := "Q";
     form_description := "";
     form_category := "Politics";
     form_options := ["a"; "b"; ""];
     form_imageUrl := "";
     form_imagePreview := "" |}.

(** The component mounted on an empty store, with the seed polls' ids
    "0" to "11" and one reading of the clock. *)
Definition example_clock (k : nat) : Z := 1700000000000.

Definition seeded_state : State :=
  {| polls := seedPolls pretty example_clock; votes := ∅ |}.

Definition seeded_app : App :=
  {| app_state := seeded_state;
     app_store :=
       saveVotes JSON.stringify (votes seeded_state)
         (savePolls JSON.stringify (polls seeded_state)
            (saveVotes JSON.stringify ∅
               (savePolls JSON.stringify []
                  (savePolls JSON.stringify (seedPolls pretty example_clock) ∅)))) |}.

(** ** Devices of the proofs *)




(** Induction over values, through the lists they nest. *)
Section json_induction.
Variable P : json -> Prop.
Hypothesis Hnull : P JNull.
Hypothesis Hbool : forall b, P (JBool b).
Hypothesis Hnumber : forall n, P (JNumber n).
Hypothesis Hstring : forall s, P (JString s).
Hypothesis Harray : forall items, Forall P items -> P (JArray items).
Hypothesis Hobject :
  forall members, Forall (fun kv => P (snd kv)) members -> P (JObject members).

Fixpoint json_induction (v : json) : P v :=
  match v with
  | JNull => Hnull
  | JBool b => Hbool b
  | JNumber n => Hnumber n
  | JString s => Hstring s
  | JArray items =>
      Harray items
        ((fix go (l : list json) : Forall P l :=
            match l with
            | [] => @List.Forall_nil _ P
            | x :: l' => @List.Forall_cons _ P x l' (json_induction x) (go l')
            end) items)
  | JObject members =>
      Hobject members
        ((fix go (l : list (string * json)) : Forall (fun kv => P (snd kv)) l :=
            match l with
            | [] => @List.Forall_nil _ _
            | kv :: l' =>
                @List.Forall_cons _ (fun kv => P (snd kv)) kv l'
                                  (json_induction (snd kv)) (go l')
            end) members)
  end.
End json_induction.

(** Fuel that [read_value] needs for a value. *)
Fixpoint weight (v : json) : nat :=
  match v with
  | JArray items => S (fold_right (fun x n => S (weight x + n)) 0%nat items)
  | JObject members =>
      S (fold_right (fun kv n => S (weight (snd kv) + n)) 0%nat members)
  | _ => 1
  end.

Definition no_digit_ahead (rest : string) : Prop :=
  match rest with
  | EmptyString => True
  | String c _ => JSON.digit_value c = None
  end.

Definition starts_value (t : string) : Prop :=
  exists c r, t = String c r /\ JSON.is_ws c = false
              /\ (c =? "]")%char = false /\ (c =? "}")%char = false.

Definition reads_back (v : json) : Prop :=
  forall fuel rest, (weight v <= fuel)%nat -> no_digit_ahead rest ->
    JSON.read_value fuel (JSON.write v rest) = Some (v, rest).

(** * Properties *)

(** ** Unfolding the handlers *)

Lemma State_ext (s1 s2 : State) :
  polls s1 = polls s2 -> votes s1 = votes s2 -> s1 = s2.
Proof. destruct s1, s2; simpl; congruence. Qed.

Lemma vote_blocked pollId optionId s :
  truthy_opt (votes s !! pollId) = true -> vote pollId optionId s = s.
Proof. intros H. unfold vote, vote_queue. by rewrite H. Qed.

Lemma vote_open pollId optionId s :
  truthy_opt (votes s !! pollId) = false ->
  vote pollId optionId s =
    {| polls := map (vote_poll pollId optionId) (polls s);
       votes := <[pollId := optionId]> (votes s) |}.
Proof. intros H. unfold vote, vote_queue. by rewrite H. Qed.

Lemma vote_cases pollId optionId s :
  vote pollId optionId s = s
  \/ vote pollId optionId s =
       {| polls := map (vote_poll pollId optionId) (polls s);
          votes := <[pollId := optionId]> (votes s) |}.
Proof.
  destruct (truthy_opt (votes s !! pollId)) eqn:E;
    [left; by apply vote_blocked | right; by apply vote_open].
Qed.

Lemma deletePoll_unfold pollId s :
  deletePoll pollId s =
    {| polls := filter (fun p => poll_id p ≠ pollId) (polls s);
       votes := delete pollId (votes s) |}.
Proof. reflexivity. Qed.

(** ** One poll under [vote] *)

Lemma bump_id optionId o : opt_id (bump optionId o) = opt_id o.
Proof. unfold bump. by case_decide. Qed.

Lemma bump_text optionId o : opt_text (bump optionId o) = opt_text o.
Proof. unfold bump. by case_decide. Qed.

Lemma bump_votes optionId o :
  opt_votes (bump optionId o) =
    opt_votes o + (if decide (opt_id o = optionId) then 1 else 0).
Proof. unfold bump. case_decide; simpl; lia. Qed.

Lemma bump_other optionId o : opt_id o ≠ optionId -> bump optionId o = o.
Proof. intros H. unfold bump. by case_decide. Qed.

Lemma bump_none optionId (os : list Option) :
  (forall o, o ∈ os -> opt_id o ≠ optionId) -> map (bump optionId) os = os.
Proof.
  induction os as [|o os IH]; intros H; [done|]. simpl.
  rewrite bump_other; [|apply H; by left].
  f_equal. apply IH. intros o' Ho'. apply H. by right.
Qed.

Lemma vote_poll_other pollId optionId p :
  poll_id p ≠ pollId -> vote_poll pollId optionId p = p.
Proof. intros H. unfold vote_poll. by case_decide. Qed.

Lemma vote_poll_options pollId optionId p :
  poll_options (vote_poll pollId optionId p) =
    if decide (poll_id p = pollId) then map (bump optionId) (poll_options p)
    else poll_options p.
Proof. unfold vote_poll. repeat case_decide; done. Qed.

Lemma vote_poll_fields pollId optionId p :
  let p' := vote_poll pollId optionId p in
  poll_id p' = poll_id p /\ poll_question p' = poll_question p
  /\ poll_description p' = poll_description p
  /\ poll_category p' = poll_category p
  /\ poll_createdAt p' = poll_createdAt p
  /\ poll_imageUrl p' = poll_imageUrl p.
Proof. unfold vote_poll. case_decide; simpl; done. Qed.

Lemma vote_poll_no_match pollId optionId p :
  (poll_id p = pollId -> forall o, o ∈ poll_options p -> opt_id o ≠ optionId) ->
  vote_poll pollId optionId p = p.
Proof.
  intros H. unfold vote_poll. case_decide as Hp; [done|].
  rewrite bump_none; [by destruct p|]. apply H.
  by destruct (decide (poll_id p = pollId)).
Qed.

(** The sum of [reduce((a, b) => a + b.votes, 0)], from any start. *)
Lemma sum_votes_from (os : list Option) (a : Z) :
  fold_left (fun a b => a + opt_votes b) os a =
    a + fold_left (fun a b => a + opt_votes b) os 0.
Proof.
  revert a. induction os as [|o os IH]; intros a; simpl; [lia|].
  rewrite (IH (a + opt_votes o)), (IH (0 + opt_votes o)). lia.
Qed.

Lemma sum_votes_cons (o : Option) (os : list Option) :
  fold_left (fun a b => a + opt_votes b) (o :: os) 0 =
    opt_votes o + fold_left (fun a b => a + opt_votes b) os 0.
Proof. simpl. rewrite sum_votes_from. lia. Qed.

(** With unique ids, bumping the options that carry [optionId] adds one to
    the sum when that id occurs, and nothing otherwise. *)
Lemma sum_votes_bump optionId (os : list Option) :
  NoDup (map opt_id os) ->
  fold_left (fun a b => a + opt_votes b) (map (bump optionId) os) 0 =
    fold_left (fun a b => a + opt_votes b) os 0
    + (if decide (optionId ∈ map opt_id os) then 1 else 0).
Proof.
  induction os as [|o os IH]; intros Hnd.
  - rewrite decide_False by apply not_elem_of_nil. simpl. lia.
  - rewrite map_cons, !sum_votes_cons, bump_votes.
    simpl in Hnd. apply NoDup_cons in Hnd as [Hfresh Hnd].
    rewrite (IH Hnd). simpl.
    destruct (decide (opt_id o = optionId)) as [Heq|Hne].
    + rewrite <- Heq in *.
      rewrite (decide_False (P := opt_id o ∈ map opt_id os)) by done.
      rewrite decide_True by (by left). lia.
    + destruct (decide (optionId ∈ map opt_id os)) as [Hin|Hnin].
      * rewrite decide_True by (by right). lia.
      * rewrite decide_False; [lia|].
        intros H. simpl in H. apply elem_of_cons in H as [?|?]; [congruence | done].
Qed.

(** ** [vote] *)

Lemma example_state_no_zz (ledger : gmap string string) :
  forall p, p ∈ polls (example_state ledger) -> poll_id p = "p" ->
    forall o, o ∈ poll_options p -> opt_id o ≠ "zz".
Proof.
  intros p Hp _ o Ho. apply list_elem_of_singleton in Hp as ->.
  simpl in Ho. apply elem_of_cons in Ho as [->|Ho]; [done|].
  apply list_elem_of_singleton in Ho as ->. done.
Qed.

(** C2, as stated, fails: with no ledger entry for "p" and no option "zz"
    in poll "p", [vote "p" "zz"] leaves the polls as they are but writes
    the entry "p" -> "zz" into the ledger. *)
Lemma vote_unmatched_option_writes_ledger :
  votes (example_state ∅) !! "p" = None
  /\ (forall p, p ∈ polls (example_state ∅) -> poll_id p = "p" ->
        forall o, o ∈ poll_options p -> opt_id o ≠ "zz")
  /\ polls (vote "p" "zz" (example_state ∅)) = polls (example_state ∅)
  /\ votes (vote "p" "zz" (example_state ∅)) !! "p" = Some "zz"
  /\ votes (vote "p" "zz" (example_state ∅)) ≠ votes (example_state ∅).
Proof.
  split; [done|]. split.
  - apply example_state_no_zz.
  - rewrite vote_open by done. simpl. split; [done|].
    split; [by rewrite lookup_insert_eq|].
    intros H. assert (Hl := f_equal (fun m => m !! "p") H). simpl in Hl.
    by rewrite lookup_insert_eq in Hl.
Qed.

(** C2, amended: when the ledger has no entry for [pollId] and no option
    of a poll with id [pollId] has id [optionId], [vote] leaves the Poll
    Collection unchanged and adds [pollId -> optionId] to the ledger. *)
Theorem vote_unmatched_option (s : State) (pollId optionId : string) :
  votes s !! pollId = None ->
  (forall p, p ∈ polls s -> poll_id p = pollId ->
     forall o, o ∈ poll_options p -> opt_id o ≠ optionId) ->
  polls (vote pollId optionId s) = polls s
  /\ votes (vote pollId optionId s) = <[pollId := optionId]> (votes s)
  /\ forall k, k ≠ pollId -> votes (vote pollId optionId s) !! k = votes s !! k.
Proof.
  intros Hfree Hno. rewrite vote_open by (by rewrite Hfree). simpl.
  split; [|split; [done|]].
  - transitivity (map id (polls s)); [|apply map_id].
    apply map_ext_in. intros p Hp. apply vote_poll_no_match.
    intros Hid. apply (Hno p); [by apply list_elem_of_In | done].
  - intros k Hk. by rewrite lookup_insert_ne.
Qed.

Lemma vote_unmatched_option_witness :
  polls (vote "p" "zz" (example_state ∅)) = polls (example_state ∅)
  /\ votes (vote "p" "zz" (example_state ∅)) = <["p" := "zz"]> ∅
  /\ forall k, k ≠ "p" -> votes (vote "p" "zz" (example_state ∅)) !! k
                          = votes (example_state ∅) !! k.
Proof.
  apply (vote_unmatched_option (example_state ∅) "p" "zz").
  - reflexivity.
  - apply example_state_no_zz.
Defined.

(** C3, as stated, fails: the guard of [vote] is [if (votes[pollId])], and
    the empty string is falsy.  With the entry "p" -> "" in the ledger,
    [vote "p" "o1"] counts a vote and overwrites the entry. *)
Lemma vote_with_empty_entry_counts :
  votes (example_state {["p" := ""]}) !! "p" = Some ""
  /\ (exists p', polls (vote "p" "o1" (example_state {["p" := ""]})) = [p']
                 /\ totalVotes example_poll = 0 /\ totalVotes p' = 1)
  /\ votes (vote "p" "o1" (example_state {["p" := ""]})) !! "p" = Some "o1".
Proof.
  split; [done|]. rewrite vote_open by done. simpl. split.
  - eexists. split; [reflexivity|]. by vm_compute.
  - by rewrite lookup_insert_eq.
Qed.

(** C3, amended: when the ledger holds a non-empty entry for [pollId],
    [vote pollId optionId] changes nothing, whatever [optionId] is: every
    count and the whole ledger are as before. *)
Theorem vote_again_is_noop (s : State) (pollId optionId chosen : string) :
  votes s !! pollId = Some chosen ->
  chosen ≠ "" ->
  vote pollId optionId s = s.
Proof.
  intros Hv Hne. apply vote_blocked. rewrite Hv. by destruct chosen.
Qed.

Lemma vote_again_is_noop_witness :
  vote "p" "o2" (example_state {["p" := "o1"]}) = example_state {["p" := "o1"]}.
Proof.
  apply (vote_again_is_noop (example_state {["p" := "o1"]}) "p" "o2" "o1").
  - reflexivity.
  - discriminate.
Defined.



(** C10: [vote pollId optionId] keeps the Poll Collection's length and
    order; at every position the poll keeps its id, question, description,
    category, createdAt and imageUrl and the length and order of its
    options; every option keeps its id and text; an option is unchanged
    unless its id is [optionId] and its poll's id is [pollId], and then
    only its count differs; and every ledger entry other than the one of
    [pollId] is unchanged. *)
Theorem vote_frame (s : State) (pollId optionId : string) :
  length (polls (vote pollId optionId s)) = length (polls s)
  /\ (forall i p, polls s !! i = Some p ->
        exists p', polls (vote pollId optionId s) !! i = Some p'
          /\ poll_id p' = poll_id p /\ poll_question p' = poll_question p
          /\ poll_description p' = poll_description p
          /\ poll_category p' = poll_category p
          /\ poll_createdAt p' = poll_createdAt p
          /\ poll_imageUrl p' = poll_imageUrl p
          /\ length (poll_options p') = length (poll_options p)
          /\ (poll_id p ≠ pollId -> p' = p)
          /\ forall j o, poll_options p !! j = Some o ->
               exists o', poll_options p' !! j = Some o'
                 /\ opt_id o' = opt_id o /\ opt_text o' = opt_text o
                 /\ (poll_id p ≠ pollId \/ opt_id o ≠ optionId -> o' = o))
  /\ (forall k, k ≠ pollId ->
        votes (vote pollId optionId s) !! k = votes s !! k).
Proof.
  destruct (vote_cases pollId optionId s) as [-> | ->].
  - split; [done|]. split; [|done].
    intros i p Hi. exists p. repeat split; try done.
    intros j o Hj. exists o. by repeat split.
  - simpl. split; [by rewrite length_map|]. split.
    + intros i p Hi. exists (vote_poll pollId optionId p).
      split; [by rewrite list_lookup_fmap, Hi|].
      destruct (vote_poll_fields pollId optionId p) as (?&?&?&?&?&?).
      repeat (split; [done|]).
      rewrite vote_poll_options.
      split; [case_decide; by rewrite ?length_map|].
      split; [apply vote_poll_other|].
      intros j o Hj. case_decide as Hp.
      * exists (bump optionId o).
        split; [by rewrite list_lookup_fmap, Hj|].
        rewrite bump_id, bump_text. repeat split.
        intros [?|?]; [done | by apply bump_other].
      * exists o. by repeat split.
    + intros k Hk. by rewrite lookup_insert_ne.
Qed.

(** ** [deletePoll] *)

Lemma deletePoll_polls_absent pollId s :
  (forall p, p ∈ polls s -> poll_id p ≠ pollId) ->
  polls (deletePoll pollId s) = polls s.
Proof.
  intros H. rewrite deletePoll_unfold. simpl.
  induction (polls s) as [|p ps IH]; [done|].
  rewrite filter_cons_True by (apply H; by left).
  f_equal. apply IH. intros q Hq. apply H. by right.
Qed.

Lemma deletePoll_votes_absent pollId s :
  votes s !! pollId = None -> votes (deletePoll pollId s) = votes s.
Proof. intros H. rewrite deletePoll_unfold. simpl. by apply delete_id. Qed.



(** ** [createPoll] *)

(** The three cases of the spec's "Creation validation". *)
Lemma createPoll_empty_question rnd now s :
  createPoll rnd now (draft "" ["a"; "b"]) s = s.
Proof. reflexivity. Qed.

Lemma createPoll_one_option rnd now s :
  createPoll rnd now (draft "Q" ["a"]) s = s.
Proof. reflexivity. Qed.

Lemma createPoll_drops_empty_option rnd now s :
  exists p, polls (createPoll rnd now (draft "Q" ["a"; "b"; ""]) s) = p :: polls s
            /\ map opt_text (poll_options p) = ["a"; "b"].
Proof. eexists. split; reflexivity. Qed.

(** [createPoll] returns early exactly when the question is absent or the
    empty string, or the options are absent or fewer than two as given. *)
Lemma createPoll_rejects_iff rnd now input s :
  createPoll rnd now input s = s <->
  (truthy_opt (in_question input) = false
   \/ in_options input = None
   \/ exists raw, in_options input = Some raw /\ (length raw < 2)%nat).
Proof.
  unfold createPoll, createPoll_queue.
  destruct (in_question input) as [question|]; simpl; [|by split; [left|]].
  destruct (in_options input) as [raw|]; simpl; [|by split; [right; left|]].
  destruct (truthy question); simpl.
  - destruct (Nat.ltb_spec (length raw) 2).
    + split; [|done]. intros _. right. right. by exists raw.
    + split.
      * intros Heq. apply (f_equal (fun st => length (polls st))) in Heq.
        simpl in Heq. lia.
      * intros [?|[?|(raw'&[= <-]&?)]]; [done | done | lia].
  - split; [by left | done].
Qed.




(** The option ids of a poll are as different as the draws of [uid]:
    when [uid] yields the same value twice, the poll created has two
    options with one id. *)
Lemma reachable_poll_with_repeated_id :
  exists s p, reachable s /\ p ∈ polls s
              /\ ~ NoDup (map opt_id (poll_options p)).
Proof.
  exists (next initial (CreatePoll (fun _ => "x") 0 (draft "Q" ["a"; "b"]))).
  eexists. split; [apply reachable_next, reachable_initial|].
  split; [by left|]. simpl.
  intros [Hfresh _]%NoDup_cons. apply Hfresh. by left.
Qed.

(** ** The form path: [submit], then [createPoll] *)

Lemma trimStart_head (s : string) :
  trimStart s = ""
  \/ exists c r, trimStart s = String c r /\ is_white_space c = false.
Proof.
  induction s as [|c s IH]; [by left|]. simpl.
  destruct (is_white_space c) eqn:Hc; [done|]. right. by exists c, s.
Qed.

Lemma trimEnd_head (c : ascii) (r : string) :
  is_white_space c = false -> exists r', trimEnd (String c r) = String c r'.
Proof.
  intros Hc. simpl. destruct (trimEnd r); rewrite ?Hc; eauto.
Qed.

Lemma trimEnd_idem (s : string) : trimEnd (trimEnd s) = trimEnd s.
Proof.
  induction s as [|c s IH]; [done|]. simpl.
  destruct (trimEnd s) as [|d t] eqn:Ht.
  - destruct (is_white_space c) eqn:Hc; [done|]. simpl. by rewrite Hc.
  - change (trimEnd (String c (String d t))) with
      (match trimEnd (String d t) with
       | EmptyString =>
           if is_white_space c then EmptyString else String c EmptyString
       | t' => String c t'
       end).
    by rewrite IH.
Qed.

Lemma trim_idem (s : string) : trim (trim s) = trim s.
Proof.
  unfold trim. destruct (trimStart_head s) as [->|(c & r & -> & Hc)]; [done|].
  destruct (trimEnd_head c r Hc) as [r' Hr']. rewrite Hr' at 1.
  simpl trimStart. rewrite Hc, <- Hr'. apply trimEnd_idem.
Qed.

Lemma truthy_length (s : string) : truthy s = true <-> (0 < String.length s)%nat.
Proof. destruct s; simpl; split; (done || lia). Qed.

Lemma cleaned_trimmed (f : PollForm) :
  Forall (fun text => trim text = text /\ text ≠ "") (cleaned f).
Proof.
  unfold cleaned. apply Forall_forall. intros text Hin.
  apply list_elem_of_filter in Hin as [Ht Hin].
  apply list_elem_of_fmap in Hin as (o & -> & _).
  split; [apply trim_idem | by destruct (trim o)].
Qed.

(** On texts that are trimmed and not empty, [cleanOptions] drops
    nothing: the options are the texts, in order, with the ids drawn in
    order and no votes. *)
Lemma cleanOptions_clean (rnd : nat -> string) (texts : list string) :
  Forall (fun text => trim text = text /\ text ≠ "") texts ->
  cleanOptions rnd
    (map (fun text => {| opt_id := ""; opt_text := text; opt_votes := 0 |}) texts)
  = imap (fun i text => {| opt_id := rnd i; opt_text := text; opt_votes := 0 |})
         texts.
Proof.
  unfold cleanOptions. revert rnd.
  induction texts as [|t texts IH]; intros rnd Hall; [done|].
  apply Forall_cons in Hall as [[Ht Hne] Hall]. simpl.
  rewrite filter_cons_True.
  - f_equal. apply (IH (rnd ∘ S) Hall).
  - simpl. rewrite Ht. apply truthy_length. by destruct t.
Qed.

Lemma imap_texts (rnd : nat -> string) (texts : list string) :
  map opt_text
    (imap (fun i text => {| opt_id := rnd i; opt_text := text; opt_votes := 0 |})
          texts) = texts
  /\ map opt_id
       (imap (fun i text => {| opt_id := rnd i; opt_text := text; opt_votes := 0 |})
             texts) = map rnd (seq 0 (length texts))
  /\ Forall (fun o => opt_votes o = 0)
       (imap (fun i text => {| opt_id := rnd i; opt_text := text; opt_votes := 0 |})
             texts).
Proof.
  revert rnd. induction texts as [|t texts IH]; intros rnd; [done|].
  destruct (IH (rnd ∘ S)) as (Ht & Hi & Hv). simpl.
  split; [by f_equal|]. split; [|by constructor].
  f_equal. rewrite <- seq_shift, map_map. exact Hi.
Qed.

Lemma submit_cases (f : PollForm) :
  (submit f = None
   /\ (trim (form_question f) = "" \/ (length (cleaned f) < 2)%nat))
  \/ (exists input, submit f = Some input
      /\ trim (form_question f) ≠ "" /\ (2 <= length (cleaned f))%nat
      /\ in_question input = Some (form_question f)
      /\ in_options input =
           Some (map (fun text => {| opt_id := ""; opt_text := text; opt_votes := 0 |})
                     (cleaned f))).
Proof.
  unfold submit. destruct (trim (form_question f)) as [|c q] eqn:Hq; simpl.
  - left. split; [done | by left].
  - destruct (Nat.ltb_spec (length (cleaned f)) 2).
    + left. split; [done | by right].
    + right. eexists. by repeat split.
Qed.

(** A press of "Create poll" that [submit] rejects. *)
Lemma submit_createPoll_rejected (rnd : nat -> string) (now : Z)
    (f : PollForm) (s : State) :
  trim (form_question f) = "" \/ (length (cleaned f) < 2)%nat ->
  submit_createPoll rnd now f s = s.
Proof.
  intros Hbad. unfold submit_createPoll.
  destruct (submit_cases f) as [[-> _]|(input & _ & Hq & Hn & _)]; [done|].
  destruct Hbad; [done | lia].
Qed.

(** A press of "Create poll" that [submit] accepts. *)
Lemma submit_createPoll_accepted (rnd : nat -> string) (now : Z)
    (f : PollForm) (s : State) :
  trim (form_question f) ≠ "" -> (2 <= length (cleaned f))%nat ->
  exists p,
    submit_createPoll rnd now f s = {| polls := p :: polls s; votes := votes s |}
    /\ poll_question p = trim (form_question f)
    /\ map opt_text (poll_options p) = cleaned f
    /\ map opt_id (poll_options p) = map rnd (seq 0 (length (cleaned f)))
    /\ Forall (fun o => opt_votes o = 0) (poll_options p)
    /\ Forall (fun text => trim text = text /\ text ≠ "") (cleaned f).
Proof.
  intros Hq Hn. unfold submit_createPoll.
  destruct (submit_cases f) as [[_ Hbad]|(input & -> & _ & _ & Hiq & Hio)].
  { destruct Hbad; [done | lia]. }
  unfold createPoll, createPoll_queue. rewrite Hiq, Hio.
  assert (Htruthy : truthy (form_question f) = true).
  { destruct (form_question f); [by simpl in Hq | done]. }
  rewrite Htruthy, length_map. simpl negb. simpl orb.
  destruct (Nat.ltb_spec (length (cleaned f)) 2); [lia|].
  eexists. split; [reflexivity|]. simpl.
  rewrite (cleanOptions_clean _ _ (cleaned_trimmed f)).
  destruct (imap_texts rnd (cleaned f)) as (Ht & Hi & Hv).
  repeat split; try done. apply cleaned_trimmed.
Qed.

(** X1: pressing "Create poll", that is [submit] and then
    [createPoll] on what it passes, trims every option text, drops the
    empty ones, and changes nothing when the question is empty after
    trimming or fewer than two options remain; otherwise it prepends one
    poll, its question trimmed, its options the cleaned texts in order,
    each trimmed, not empty and with no votes, their ids the first draws
    of [uid] in order; the ledger is as before. *)
Theorem submit_createPoll_validates (rnd : nat -> string) (now : Z)
    (f : PollForm) (s : State) :
  (trim (form_question f) = "" \/ (length (cleaned f) < 2)%nat ->
   submit_createPoll rnd now f s = s)
  /\ (trim (form_question f) ≠ "" -> (2 <= length (cleaned f))%nat ->
      exists p,
        submit_createPoll rnd now f s = {| polls := p :: polls s; votes := votes s |}
        /\ poll_question p = trim (form_question f)
        /\ map opt_text (poll_options p) = cleaned f
        /\ map opt_id (poll_options p) = map rnd (seq 0 (length (cleaned f)))
        /\ Forall (fun o => opt_votes o = 0) (poll_options p)
        /\ Forall (fun text => trim text = text /\ text ≠ "") (cleaned f)).
Proof.
  split; [apply submit_createPoll_rejected | apply submit_createPoll_accepted].
Qed.

(** The spec's third case of "Creation validation", on the form: the
    options "a", "b" and "" give a poll with exactly the two options "a"
    and "b". *)
Lemma submit_createPoll_validates_witness :
  exists p,
    submit_createPoll (fun i => pretty i) 0 example_form initial
    = {| polls := p :: polls initial; votes := votes initial |}
    /\ poll_question p = "Q"
    /\ map opt_text (poll_options p) = ["a"; "b"]
    /\ map opt_id (poll_options p) = ["0"; "1"]
    /\ Forall (fun o => opt_votes o = 0) (poll_options p)
    /\ Forall (fun text => trim text = text /\ text ≠ "") ["a"; "b"].
Proof.
  refine (proj2 (submit_createPoll_validates
                   (fun i => pretty i) 0 example_form initial) _ _).
  - discriminate.
  - vm_compute. lia.
Defined.

(** ** The invariant on the form path *)

Lemma bump_well_formed optionId (os : list Option) :
  Forall (fun o => trim (opt_text o) = opt_text o /\ opt_text o ≠ ""
                   /\ 0 <= opt_votes o) os ->
  Forall (fun o => trim (opt_text o) = opt_text o /\ opt_text o ≠ ""
                   /\ 0 <= opt_votes o) (map (bump optionId) os).
Proof.
  intros H. apply Forall_fmap. eapply Forall_impl; [exact H|].
  intros o (?&?&?). simpl. rewrite bump_text, bump_votes.
  repeat split; [done..|]. case_decide; lia.
Qed.

Lemma vote_poll_well_formed pollId optionId p :
  well_formed p -> well_formed (vote_poll pollId optionId p).
Proof.
  intros (Hn & Hd & Hq & Ho). unfold well_formed.
  destruct (vote_poll_fields pollId optionId p) as (_ & -> & _).
  rewrite vote_poll_options. case_decide; [|done].
  rewrite length_map. repeat split; [done| |done|by apply bump_well_formed].
  rewrite map_map.
  erewrite map_ext; [exact Hd|]. intros o. apply bump_id.
Qed.

Lemma fresh_options_well_formed (os : list Option) :
  Forall (fun o => opt_votes o = 0) os ->
  Forall (fun text => trim text = text /\ text ≠ "") (map opt_text os) ->
  Forall (fun o => trim (opt_text o) = opt_text o /\ opt_text o ≠ ""
                   /\ 0 <= opt_votes o) os.
Proof.
  induction os as [|o os IH]; [done|]. simpl.
  intros [Ho Hv]%Forall_cons [[? ?] Hc]%Forall_cons.
  constructor; [|by apply IH]. repeat split; [done..|lia].
Qed.

(** One event of the page keeps the polls well formed. *)
Lemma ui_next_well_formed (s : State) (e : UiEvent) :
  fresh_draws e -> Forall well_formed (polls s) ->
  Forall well_formed (polls (ui_next s e)).
Proof.
  intros Hfresh IH.
  destruct e as [rnd now f|pollId optionId|pollId]; simpl ui_next.
  - destruct (submit_cases f) as [[_ Hb]|(_ & _ & Hq & Hn & _)].
    + by rewrite submit_createPoll_rejected.
    + destruct (submit_createPoll_accepted rnd now f s Hq Hn)
        as (p & -> & Hpq & Ht & Hi & Hv & Hc). simpl.
      constructor; [|done]. unfold well_formed.
      assert (Hlen : length (poll_options p) = length (cleaned f))
        by (by rewrite <- Ht, length_map).
      rewrite Hlen, Hi, Hpq. repeat split; [done..|].
      apply fresh_options_well_formed; [done | by rewrite Ht].
  - destruct (vote_cases pollId optionId s) as [-> | ->]; [done|]. simpl.
    apply Forall_fmap. eapply Forall_impl; [exact IH|].
    intros p. apply vote_poll_well_formed.
  - change (polls (deletePoll pollId s))
      with (filter (fun p => poll_id p ≠ pollId) (polls s)).
    rewrite Forall_forall in IH. apply Forall_forall.
    intros p [_ Hp]%list_elem_of_filter. by apply IH.
Qed.

(** X2: in every state reached from the empty one through the
    form, the vote buttons and the delete menu, with the option ids drawn
    for one poll pairwise different, every poll has at least two options
    with pairwise different ids, a question that is not empty, and option
    texts that are trimmed and not empty, with counts that are not
    negative. *)
Theorem ui_reachable_well_formed (s : State) :
  ui_reachable s -> Forall well_formed (polls s).
Proof.
  induction 1 as [|s e Hs IH Hfresh]; [by constructor|].
  by apply ui_next_well_formed.
Qed.

Lemma ui_reachable_well_formed_witness :
  Forall well_formed
    (polls (ui_next initial (UiSubmit (fun i => pretty i) 0 example_form))).
Proof.
  apply ui_reachable_well_formed.
  apply ui_reachable_next; [apply ui_reachable_initial|].
  vm_compute. apply NoDup_cons. split; [|apply NoDup_singleton].
  intros H. apply list_elem_of_singleton in H. discriminate.
Defined.

(** ** [filtered] *)

Lemma prefix_app (a s : string) :
  String.prefix a s = true <-> exists r, s = a +:+ r.
Proof.
  revert s. induction a as [|c a IH]; intros s.
  - split; [intros _; by exists s | by destruct s].
  - destruct s as [|d s]; simpl; [split; [done | by intros [r ?]]|].
    destruct (ascii_dec c d) as [->|Hne].
    + rewrite IH. split; intros [r Hr]; exists r; [by rewrite Hr | by injection Hr].
    + split; [done | intros [r Hr]; injection Hr; congruence].
Qed.

Lemma includes_nil (sub : string) :
  includes "" sub = String.prefix sub "".
Proof. unfold includes. apply orb_false_r. Qed.

Lemma includes_cons (c : ascii) (s sub : string) :
  includes (String c s) sub = String.prefix sub (String c s) || includes s sub.
Proof. reflexivity. Qed.

Lemma includes_app (s sub : string) :
  includes s sub = true <-> exists l r, s = l +:+ sub +:+ r.
Proof.
  split.
  - induction s as [|c s IH].
    + rewrite includes_nil. intros [r Hr]%prefix_app. by exists "", r.
    + rewrite includes_cons, orb_true_iff. intros [H|H].
      * apply prefix_app in H as [r Hr]. by exists "", r.
      * destruct (IH H) as (l & r & ->). by exists (String c l), r.
  - intros (l & r & ->). induction l as [|c l IH].
    + assert (H : String.prefix sub (sub +:+ r) = true)
        by (apply prefix_app; by exists r).
      change ("" +:+ sub +:+ r) with (sub +:+ r).
      destruct (sub +:+ r) as [|d t].
      * by rewrite includes_nil.
      * by rewrite includes_cons, H.
    + change (String c l +:+ sub +:+ r) with (String c (l +:+ sub +:+ r)).
      rewrite includes_cons, IH. apply orb_true_r.
Qed.

Lemma includes_empty (s : string) : includes s "" = true.
Proof. apply includes_app. by exists "", s. Qed.

Lemma keeps_includes categoryFilter searchText p :
  keeps categoryFilter searchText p <->
  includes (toLowerCase (poll_question p)) (toLowerCase searchText) = true
  /\ (categoryFilter = "All" \/ poll_category p = categoryFilter).
Proof.
  unfold keeps, case_insensitive_substring. rewrite includes_app. split.
  - intros [Hc [->|Hs]]; (split; [|done]); [|done].
    apply includes_app, includes_empty.
  - intros [Hs Hc]. split; [done | by right].
Qed.

#[local] Instance keeps_dec categoryFilter searchText p :
  Decision (keeps categoryFilter searchText p).
Proof.
  refine (cast_if (decide
    (includes (toLowerCase (poll_question p)) (toLowerCase searchText) = true
     /\ (categoryFilter = "All" \/ poll_category p = categoryFilter))));
    by rewrite keeps_includes.
Defined.




(** ** [pct] *)








(** ** The JSON writer and reader agree *)

(** The characters of a string are read back, whatever follows the
    closing quotation mark. *)
Lemma read_chars_write_chars (s rest : string) :
  JSON.read_chars (JSON.write_chars s (String JSON.quotation_mark rest))
  = Some (s, rest).
Proof.
  induction s as [|c s IH]; [reflexivity|].
  simpl JSON.write_chars.
  set (tail := JSON.write_chars s (String JSON.quotation_mark rest)) in *.
  clearbody tail.
  destruct c as [[] [] [] [] [] [] [] []];
    (unfold JSON.write_char; simpl; rewrite IH; reflexivity).
Qed.

Lemma read_digits_stop (rest : string) (acc : Z) :
  no_digit_ahead rest -> JSON.read_digits rest acc = (acc, rest).
Proof. destruct rest as [|c r]; simpl; [done|]. by intros ->. Qed.

Lemma digit_value_pretty (d : N) :
  (d < 10)%N -> JSON.digit_value (pretty_N_char d) = Some (Z.of_N d).
Proof.
  intros Hd.
  assert (d = 0 ∨ d = 1 ∨ d = 2 ∨ d = 3 ∨ d = 4 ∨ d = 5 ∨ d = 6 ∨ d = 7
          ∨ d = 8 ∨ d = 9)%N as H by lia.
  repeat destruct H as [->|H]; try subst d; reflexivity.
Qed.

(** Reading the digits that [pretty_N_go x] puts in front of [s]. *)
Lemma read_digits_pretty (x : N) (s : string) (acc : Z) :
  exists k, JSON.read_digits (pretty_N_go x s) acc
            = JSON.read_digits s (acc * 10 ^ Z.of_nat k + Z.of_N x).
Proof.
  revert s. induction (N.lt_wf_0 x) as [x _ IH]; intros s.
  destruct (N.eq_dec x 0%N) as [->|Hx].
  - exists 0%nat. rewrite pretty_N_go_0. f_equal. simpl. lia.
  - rewrite pretty_N_go_step by lia.
    destruct (IH (x `div` 10)%N (N.div_lt x 10%N ltac:(lia) ltac:(lia))
                (String (pretty_N_char (x `mod` 10)) s)) as [k Hk].
    exists (S k). rewrite Hk. simpl JSON.read_digits.
    rewrite digit_value_pretty by (apply N.mod_lt; lia).
    f_equal. rewrite Nat2Z.inj_succ, Z.pow_succ_r by lia.
    pose proof (N.div_mod x 10%N ltac:(lia)) as Hdm.
    assert (Z.of_N x = 10 * Z.of_N (x `div` 10) + Z.of_N (x `mod` 10)) by lia.
    lia.
Qed.

(** A positive number starts with a digit other than 0. *)
Lemma pretty_head (x : N) (s : string) :
  (0 < x)%N ->
  exists d r, pretty_N_go x s = String (pretty_N_char d) r /\ (0 < d < 10)%N.
Proof.
  revert s. induction (N.lt_wf_0 x) as [x _ IH]; intros s Hx.
  rewrite pretty_N_go_step by done.
  destruct (N.eq_dec (x `div` 10)%N 0%N) as [H0|Hn].
  - rewrite H0, pretty_N_go_0. exists (x `mod` 10)%N, s. split; [done|].
    pose proof (N.div_mod x 10%N ltac:(lia)) as Hdm. rewrite H0 in Hdm.
    assert (x `mod` 10 < 10)%N by (apply N.mod_lt; lia). lia.
  - assert (x `div` 10 < x)%N by (apply N.div_lt; lia).
    assert (0 < x `div` 10)%N by (destruct (x `div` 10)%N; [done | lia]).
    by apply IH.
Qed.

Lemma digit_cases (d : N) :
  (0 < d < 10)%N ->
  (d = 1 \/ d = 2 \/ d = 3 \/ d = 4 \/ d = 5 \/ d = 6 \/ d = 7 \/ d = 8 \/ d = 9)%N.
Proof. lia. Qed.

(** One goal for each digit from 1 to 9. *)
Ltac each_digit d Hd :=
  destruct (digit_cases d Hd) as [?|[?|[?|[?|[?|[?|[?|[?|?]]]]]]]]; subst d.

Lemma read_nat_digit (d : N) (r : string) :
  (0 < d < 10)%N ->
  JSON.read_nat (String (pretty_N_char d) r)
  = Some (JSON.read_digits r (Z.of_N d))
  /\ JSON.read_int (String (pretty_N_char d) r)
     = JSON.read_nat (String (pretty_N_char d) r).
Proof.
  intros Hd.
  each_digit d Hd; by split.
Qed.

Lemma read_nat_pretty (p : positive) (rest : string) :
  no_digit_ahead rest ->
  JSON.read_nat (pretty_N_go (Npos p) rest) = Some (Zpos p, rest)
  /\ JSON.read_int (pretty_N_go (Npos p) rest) = Some (Zpos p, rest).
Proof.
  intros Hrest.
  destruct (pretty_head (Npos p) rest) as (d & r & Hd & Hr); [lia|].
  destruct (read_digits_pretty (Npos p) rest 0) as [k Hk].
  rewrite Hd in Hk. simpl JSON.read_digits in Hk.
  rewrite digit_value_pretty in Hk by lia.
  rewrite (read_digits_stop rest) in Hk by done.
  replace (10 * 0 + Z.of_N d) with (Z.of_N d) in Hk by lia.
  rewrite Z.mul_0_l, Z.add_0_l in Hk. change (Z.of_N (Npos p)) with (Zpos p) in Hk.
  destruct (read_nat_digit d r Hr) as [Hn Hi].
  rewrite Hd, Hi, Hn, Hk. done.
Qed.

(** An integer is read back when no digit follows it. *)
Lemma read_int_write_int (n : Z) (rest : string) :
  no_digit_ahead rest ->
  JSON.read_int (JSON.write_int n rest) = Some (n, rest).
Proof.
  intros Hrest. destruct n as [|p|p]; simpl JSON.write_int.
  - reflexivity.
  - by apply read_nat_pretty.
  - simpl. by rewrite (proj1 (read_nat_pretty p rest Hrest)).
Qed.

Lemma write_string_head (s rest : string) :
  JSON.write_string s rest
  = String JSON.quotation_mark
      (JSON.write_chars s (String JSON.quotation_mark rest)).
Proof. reflexivity. Qed.

(** What the writer writes for a value starts with no white space and
    with no closing bracket. *)
Lemma write_starts_value (v : json) (rest : string) :
  starts_value (JSON.write v rest).
Proof.
  destruct v as [|[]|[|p|p]|s|[|x xs]|[|[k x] ms]];
    try (eexists _, _; split; [reflexivity | by repeat split]).
  simpl. destruct (pretty_head (Npos p) rest) as (d & r & -> & Hd); [lia|].
  exists (pretty_N_char d), r. split; [done|].
  each_digit d Hd; by repeat split.
Qed.

Lemma skip_ws_head (c : ascii) (r : string) :
  JSON.is_ws c = false -> JSON.skip_ws (String c r) = String c r.
Proof. intros H. simpl. by rewrite H. Qed.

Lemma read_elements_S fuel s seen :
  JSON.read_elements (S fuel) s seen =
    match JSON.read_value fuel s with
    | Some (v, rest) =>
        match JSON.skip_ws rest with
        | String "," rest' => JSON.read_elements fuel rest' (v :: seen)
        | String "]" rest' => Some (JArray (rev (v :: seen)), rest')
        | _ => None
        end
    | None => None
    end.
Proof. reflexivity. Qed.

(** The elements of an array, from the first one to the closing bracket. *)
Lemma read_elements_write (xs : list json) :
  Forall reads_back xs ->
  forall x seen fuel rest,
    reads_back x ->
    (fold_right (fun y n => S (weight y + n)) 0%nat (x :: xs) <= fuel)%nat ->
    JSON.read_elements fuel
      (JSON.write x (fold_right (fun y out => String "," (JSON.write y out))
                                (String "]" rest) xs)) seen
    = Some (JArray (rev seen ++ x :: xs), rest).
Proof.
  induction 1 as [|y ys Hy Hys IH]; intros x seen fuel rest Hx Hfuel;
    simpl in Hfuel; (destruct fuel as [|fuel]; [lia|]);
    rewrite read_elements_S.
  - simpl fold_right. rewrite Hx by (done || lia). done.
  - simpl fold_right. rewrite Hx by (done || lia).
    simpl JSON.skip_ws. cbv iota beta.
    rewrite (IH y (x :: seen) fuel rest Hy) by (simpl; lia).
    simpl rev. by rewrite <- app_assoc.
Qed.

(** The members of an object, from the first key to the closing brace. *)
Lemma read_members_write (ms : list (string * json)) :
  Forall (fun kv => reads_back (snd kv)) ms ->
  forall k x seen fuel rest,
    reads_back x ->
    (fold_right (fun kv n => S (weight (snd kv) + n)) 0%nat ((k, x) :: ms)
     <= fuel)%nat ->
    JSON.read_members fuel
      (JSON.write_string k
         (String ":"
            (JSON.write x
               (fold_right
                  (fun kv out =>
                     String "," (JSON.write_string (fst kv)
                                   (String ":" (JSON.write (snd kv) out))))
                  (String "}" rest) ms)))) seen
    = Some (JObject (rev seen ++ (k, x) :: ms), rest).
Proof.
  induction 1 as [|[k' y] ms Hy Hms IH]; intros k x seen fuel rest Hx Hfuel;
    simpl in Hfuel; (destruct fuel as [|fuel]; [lia|]);
    rewrite write_string_head; simpl JSON.read_members;
    rewrite read_chars_write_chars; simpl JSON.skip_ws; cbv iota beta.
  - simpl fold_right. rewrite Hx by (done || lia). done.
  - simpl fold_right. rewrite Hx by (done || lia).
    simpl JSON.skip_ws. cbv iota beta.
    rewrite (IH k' y ((k, x) :: seen) fuel rest Hy) by (simpl; lia).
    simpl rev. by rewrite <- app_assoc.
Qed.

Lemma read_value_S fuel c s' :
  JSON.is_ws c = false ->
  JSON.read_value (S fuel) (String c s') =
    if (c =? "[")%char then
      match JSON.skip_ws s' with
      | EmptyString => None
      | String c' rest as t' =>
          if (c' =? "]")%char then Some (JArray [], rest)
          else JSON.read_elements fuel t' []
      end
    else if (c =? "{")%char then
      match JSON.skip_ws s' with
      | EmptyString => None
      | String c' rest as t' =>
          if (c' =? "}")%char then Some (JObject [], rest)
          else JSON.read_members fuel t' []
      end
    else if (c =? "n")%char then JSON.read_literal "null" JNull (String c s')
    else if (c =? "t")%char then JSON.read_literal "true" (JBool true) (String c s')
    else if (c =? "f")%char then JSON.read_literal "false" (JBool false) (String c s')
    else if (c =? JSON.quotation_mark)%char then
      match JSON.read_chars s' with
      | Some (str, rest) => Some (JString str, rest)
      | None => None
      end
    else
      match JSON.read_int (String c s') with
      | Some (n, rest) => Some (JNumber n, rest)
      | None => None
      end.
Proof. intros H. simpl. by rewrite H. Qed.

(** Every value is read back from what the writer writes for it, given
    fuel for its weight. *)
Lemma read_value_write (v : json) : reads_back v.
Proof.
  induction v as [|b|n|s|items IH|members IH] using json_induction;
    intros fuel rest Hfuel Hrest; simpl in Hfuel;
    (destruct fuel as [|fuel]; [lia|]).
  - reflexivity.
  - by destruct b.
  - destruct (write_starts_value (JNumber n) rest) as (c & r & Hw & Hc & _).
    pose proof (read_int_write_int n rest Hrest) as Hint.
    simpl JSON.write in *. rewrite Hw in *.
    rewrite read_value_S, Hint by done. clear Hint.
    destruct n as [|p|p].
    + by injection Hw as <- <-.
    + simpl in Hw. destruct (pretty_head (Npos p) rest) as (d & r' & Hd & Hr); [lia|].
      rewrite Hd in Hw. injection Hw as <- <-.
      by each_digit d Hr.
    + by injection Hw as <- <-.
  - simpl JSON.write. rewrite write_string_head, read_value_S by done.
    simpl. by rewrite read_chars_write_chars.
  - simpl JSON.write. rewrite read_value_S by done. simpl (_ =? _)%char. cbv iota.
    destruct items as [|x xs]; [done|].
    apply Forall_cons in IH as [Hx Hxs].
    destruct (write_starts_value x
                (fold_right (fun y out => String "," (JSON.write y out))
                            (String "]" rest) xs)) as (c & r & Hw & Hc & Hb & _).
    rewrite Hw, skip_ws_head, Hb by done. rewrite <- Hw.
    rewrite (read_elements_write xs Hxs x [] fuel rest Hx) by (simpl in *; lia).
    done.
  - simpl JSON.write. rewrite read_value_S by done. simpl (_ =? _)%char. cbv iota.
    destruct members as [|[k x] ms]; [done|].
    apply Forall_cons in IH as [Hx Hms].
    rewrite write_string_head, skip_ws_head by done.
    change ((JSON.quotation_mark =? "}")%char) with false. cbv iota.
    rewrite <- write_string_head.
    rewrite (read_members_write ms Hms k x [] fuel rest Hx) by (simpl in *; lia).
    done.
Qed.

Lemma length_write_char (c : ascii) (rest : string) :
  (String.length rest < String.length (JSON.write_char c rest))%nat.
Proof. unfold JSON.write_char. repeat case_match; simpl; lia. Qed.

Lemma length_write_chars (s rest : string) :
  (String.length rest <= String.length (JSON.write_chars s rest))%nat.
Proof.
  induction s as [|c s IH]; simpl; [lia|].
  pose proof (length_write_char c (JSON.write_chars s rest)). lia.
Qed.

Lemma length_pretty (x : N) (s : string) :
  (String.length s <= String.length (pretty_N_go x s))%nat.
Proof.
  revert s. induction (N.lt_wf_0 x) as [x _ IH]; intros s.
  destruct (N.eq_dec x 0%N) as [->|Hx]; [by rewrite pretty_N_go_0|].
  rewrite pretty_N_go_step by lia.
  etrans; [|apply IH, N.div_lt; lia]. simpl. lia.
Qed.

(** The text of a value is at least as long as its weight, so the fuel
    of [parse] suffices. *)
Lemma length_write (v : json) (rest : string) :
  (weight v + String.length rest <= String.length (JSON.write v rest))%nat.
Proof.
  revert rest.
  induction v as [|b|n|s|items IH|members IH] using json_induction; intros rest.
  - simpl. lia.
  - destruct b; simpl; lia.
  - destruct n as [|p|p]; simpl; [lia| |].
    + destruct (pretty_head (Npos p) rest) as (d & r & Hd & _); [lia|].
      pose proof (length_pretty (Npos p) rest) as Hl.
      rewrite pretty_N_go_step in * by lia.
      pose proof (length_pretty (N.pos p `div` 10)
                    (String (pretty_N_char (N.pos p `mod` 10)) rest)).
      simpl in *. lia.
    + rewrite pretty_N_go_step by lia.
      pose proof (length_pretty (N.pos p `div` 10)
                    (String (pretty_N_char (N.pos p `mod` 10)) rest)).
      simpl in *. lia.
  - simpl. pose proof (length_write_chars s (String JSON.quotation_mark rest)).
    simpl in *. lia.
  - simpl JSON.write. simpl weight. simpl String.length.
    destruct items as [|x xs]; [simpl; lia|].
    apply Forall_cons in IH as [Hx Hxs].
    etrans; [|apply le_n_S, Hx]. simpl fold_right.
    assert (fold_right (fun y n => S (weight y + n)) 0%nat xs
            + S (String.length rest)
            <= String.length
                 (fold_right (fun y out => String "," (JSON.write y out))
                             (String "]" rest) xs))%nat; [|lia].
    clear Hx. induction Hxs as [|y ys Hy Hys IHys]; simpl; [lia|].
    pose proof (Hy (fold_right (fun y out => String "," (JSON.write y out))
                               (String "]" rest) ys)). lia.
  - simpl JSON.write. simpl weight. simpl String.length.
    destruct members as [|[k x] ms]; [simpl; lia|].
    apply Forall_cons in IH as [Hx Hms]. simpl in Hx. simpl fold_right.
    set (out := fold_right _ (String "}" rest) ms).
    pose proof (length_write_chars k
                  (String JSON.quotation_mark (String ":" (JSON.write x out)))).
    pose proof (Hx out).
    assert (fold_right (fun kv n => S (weight (snd kv) + n)) 0%nat ms
            + S (String.length rest) <= String.length out)%nat;
      [|simpl in *; lia].
    subst out. clear - Hms. induction Hms as [|[k' y] ys Hy Hys IHys]; simpl; [lia|].
    set (out := fold_right _ (String "}" rest) ys) in *.
    pose proof (length_write_chars k'
                  (String JSON.quotation_mark (String ":" (JSON.write y out)))).
    pose proof (Hy out). simpl in *. lia.
Qed.

(** [JSON.parse (JSON.stringify v)] is [v], for every value. *)
Theorem parse_stringify (v : json) : JSON.parse (JSON.stringify v) = Some v.
Proof.
  unfold JSON.parse, JSON.stringify.
  rewrite read_value_write; [done| |done].
  pose proof (length_write v ""). simpl in *. lia.
Qed.

(** ** [loadPolls] and [loadVotes] *)

Section LocalStorageFacts.

Variable JSON_parse : string -> option json.
Variable JSON_stringify : json -> string.

Lemma truthy_nonempty (s : string) : s ≠ "" -> truthy s = true.
Proof. by destruct s. Qed.

Lemma loadPolls_absent localStorage :
  localStorage !! LS_POLLS_KEY = None ->
  loadPolls JSON_parse localStorage = JArray [].
Proof. intros H. unfold loadPolls. by rewrite H. Qed.

Lemma loadPolls_empty_text localStorage :
  localStorage !! LS_POLLS_KEY = Some "" ->
  loadPolls JSON_parse localStorage = JArray [].
Proof. intros H. unfold loadPolls. by rewrite H. Qed.

Lemma loadPolls_throws localStorage raw :
  localStorage !! LS_POLLS_KEY = Some raw -> JSON_parse raw = None ->
  loadPolls JSON_parse localStorage = JArray [].
Proof.
  intros H Hp. unfold loadPolls. rewrite H, Hp. by destruct (truthy raw).
Qed.

Lemma loadPolls_parsed localStorage raw v :
  localStorage !! LS_POLLS_KEY = Some raw -> raw ≠ "" ->
  JSON_parse raw = Some v ->
  loadPolls JSON_parse localStorage = v.
Proof.
  intros H Hne Hp. unfold loadPolls. by rewrite H, truthy_nonempty, Hp.
Qed.

Lemma loadPolls_savePolls localStorage ps :
  JSON_stringify (json_of_polls ps) ≠ "" ->
  JSON_parse (JSON_stringify (json_of_polls ps)) = Some (json_of_polls ps) ->
  loadPolls JSON_parse (savePolls JSON_stringify ps localStorage)
  = json_of_polls ps.
Proof.
  intros Hne Hp. apply (loadPolls_parsed _ _ _ (lookup_insert_eq _ _ _) Hne Hp).
Qed.




Lemma loadVotes_parsed localStorage raw v :
  localStorage !! LS_VOTES_KEY = Some raw -> raw ≠ "" ->
  JSON_parse raw = Some v ->
  loadVotes JSON_parse localStorage = v.
Proof.
  intros H Hne Hp. unfold loadVotes. by rewrite H, truthy_nonempty, Hp.
Qed.

Lemma loadVotes_saveVotes localStorage ledger :
  JSON_stringify (json_of_votes ledger) ≠ "" ->
  JSON_parse (JSON_stringify (json_of_votes ledger)) = Some (json_of_votes ledger) ->
  loadVotes JSON_parse (saveVotes JSON_stringify ledger localStorage)
  = json_of_votes ledger.
Proof.
  intros Hne Hp. apply (loadVotes_parsed _ _ _ (lookup_insert_eq _ _ _) Hne Hp).
Qed.

(** The two stores do not disturb each other. *)
Lemma loadPolls_saveVotes localStorage ledger :
  loadPolls JSON_parse (saveVotes JSON_stringify ledger localStorage)
  = loadPolls JSON_parse localStorage.
Proof. unfold loadPolls, saveVotes. by rewrite lookup_insert_ne. Qed.

Lemma loadVotes_savePolls localStorage ps :
  loadVotes JSON_parse (savePolls JSON_stringify ps localStorage)
  = loadVotes JSON_parse localStorage.
Proof. unfold loadVotes, savePolls. by rewrite lookup_insert_ne. Qed.

End LocalStorageFacts.




(** ** Saving and loading with the JSON writer and reader of this file *)

Lemma stringify_nonempty (v : json) : JSON.stringify v ≠ "".
Proof.
  unfold JSON.stringify.
  by destruct (write_starts_value v "") as (c & r & -> & _).
Qed.

Lemma map_injective {A B : Type} (f : A -> B) (l l' : list A) :
  (forall x y, f x = f y -> x = y) -> map f l = map f l' -> l = l'.
Proof.
  intros Hf. revert l'. induction l as [|x l IH]; intros [|y l'] H;
    simpl in H; try done.
  injection H as Hxy Hl. f_equal; [by apply Hf | by apply IH].
Qed.

Lemma json_of_Option_inj (o o' : Option) :
  json_of_Option o = json_of_Option o' -> o = o'.
Proof.
  destruct o, o'. unfold json_of_Option. simpl. intros H.
  injection H as -> -> ->. done.
Qed.

(** Different polls are different JavaScript values. *)
Lemma json_of_Poll_inj (p p' : Poll) :
  json_of_Poll p = json_of_Poll p' -> p = p'.
Proof.
  destruct p as [i q d os c t u], p' as [i' q' d' os' c' t' u'].
  unfold json_of_Poll. simpl.
  destruct d as [d|], d' as [d'|]; simpl; intros H; try done;
    simplify_eq;
    match goal with
    | Hos : map json_of_Option _ = map json_of_Option _ |- _ =>
        apply (map_injective _ _ _ json_of_Option_inj) in Hos as ->
    end;
    destruct u, u'; by simplify_eq.
Qed.

Lemma json_of_polls_inj (ps ps' : list Poll) :
  json_of_polls ps = json_of_polls ps' -> ps = ps'.
Proof.
  unfold json_of_polls. intros [= H].
  by apply (map_injective _ _ _ json_of_Poll_inj) in H.
Qed.

Lemma json_of_votes_inj (ledger ledger' : gmap string string) :
  json_of_votes ledger = json_of_votes ledger' -> ledger = ledger'.
Proof.
  unfold json_of_votes. intros [= H]. apply map_to_list_inj.
  apply map_injective in H; [by rewrite H|].
  intros [k v] [k' v'] [= -> ->]. done.
Qed.

(** X3: with the JSON writer and reader of this file, which read back
    every value they write, [loadPolls] after [savePolls ps] returns [ps]
    and [loadVotes] after [saveVotes ledger] returns [ledger], whether
    one store is saved or both, in this order; and the value returned
    stands for no other collection and no other ledger. *)
Theorem load_after_save (localStorage : gmap string string)
    (ps : list Poll) (ledger : gmap string string) :
  loadPolls JSON.parse (savePolls JSON.stringify ps localStorage)
  = json_of_polls ps
  /\ loadVotes JSON.parse (saveVotes JSON.stringify ledger localStorage)
     = json_of_votes ledger
  /\ loadPolls JSON.parse
       (saveVotes JSON.stringify ledger (savePolls JSON.stringify ps localStorage))
     = json_of_polls ps
  /\ loadVotes JSON.parse
       (saveVotes JSON.stringify ledger (savePolls JSON.stringify ps localStorage))
     = json_of_votes ledger
  /\ (forall ps', json_of_polls ps' = json_of_polls ps <-> ps' = ps)
  /\ (forall ledger', json_of_votes ledger' = json_of_votes ledger
                      <-> ledger' = ledger).
Proof.
  assert (Hp : forall ls, loadPolls JSON.parse (savePolls JSON.stringify ps ls)
                          = json_of_polls ps).
  { intros ls. apply loadPolls_savePolls;
      [apply stringify_nonempty | apply parse_stringify]. }
  assert (Hv : forall ls, loadVotes JSON.parse (saveVotes JSON.stringify ledger ls)
                          = json_of_votes ledger).
  { intros ls. apply loadVotes_saveVotes;
      [apply stringify_nonempty | apply parse_stringify]. }
  split; [apply Hp|]. split; [apply Hv|].
  split; [by rewrite loadPolls_saveVotes|]. split; [apply Hv|].
  split; intros x; (split; [|by intros ->]);
    [apply json_of_polls_inj | apply json_of_votes_inj].
Qed.

(** ** [timeAgo] *)

Lemma div_bounds (e c : Z) : 0 < c -> c * (e / c) <= e < c * (e / c) + c.
Proof.
  intros Hc. pose proof (Z.mul_div_le e c Hc).
  pose proof (Z.mul_succ_div_gt e c Hc). lia.
Qed.

(** The three tests of [timeAgo] and its three nested quotients, in
    terms of the elapsed milliseconds. *)
Lemma timeAgo_cases (e : Z) :
  let s := e / 1000 in
  (s <? 60) = (e <? 60000)
  /\ (s / 60 <? 60) = (e <? 3600000)
  /\ (s / 60 / 60 <? 24) = (e <? 86400000)
  /\ s / 60 = e / 60000
  /\ s / 60 / 60 = e / 3600000
  /\ s / 60 / 60 / 24 = e / 86400000.
Proof.
  cbv zeta.
  assert (Em : e / 1000 / 60 = e / 60000)
    by (by rewrite (Z.div_div e 1000 60) by lia).
  assert (Eh : e / 1000 / 60 / 60 = e / 3600000)
    by (by rewrite Em, (Z.div_div e 60000 60) by lia).
  assert (Ed : e / 1000 / 60 / 60 / 24 = e / 86400000)
    by (by rewrite Eh, (Z.div_div e 3600000 24) by lia).
  rewrite Ed, Eh, Em.
  pose proof (div_bounds e 1000). pose proof (div_bounds e 60000).
  pose proof (div_bounds e 3600000).
  repeat split; try done;
    match goal with
    | |- (?a <? ?b) = (?c <? ?d) =>
        destruct (Z.ltb_spec a b), (Z.ltb_spec c d); try reflexivity; lia
    end.
Qed.

(** X4: [timeAgo] by the milliseconds elapsed between [ts] and now.
    Below one minute it shows the whole seconds, at most 59; from one
    minute to below one hour the whole minutes, 1 to 59; from one hour to
    below one day the whole hours, 1 to 23; from one day on the whole
    days, at least 1.  Each number is the floor of the elapsed time in
    its unit, and the text ends in " ago". *)
Theorem timeAgo_units (now ts : Z) :
  (now - ts < 60000 ->
     timeAgo now ts = pretty ((now - ts) / 1000) +:+ "s ago"
     /\ (now - ts) / 1000 <= 59)
  /\ (60000 <= now - ts < 3600000 ->
      timeAgo now ts = pretty ((now - ts) / 60000) +:+ "m ago"
      /\ 1 <= (now - ts) / 60000 <= 59)
  /\ (3600000 <= now - ts < 86400000 ->
      timeAgo now ts = pretty ((now - ts) / 3600000) +:+ "h ago"
      /\ 1 <= (now - ts) / 3600000 <= 23)
  /\ (86400000 <= now - ts ->
      timeAgo now ts = pretty ((now - ts) / 86400000) +:+ "d ago"
      /\ 1 <= (now - ts) / 86400000).
Proof.
  destruct (timeAgo_cases (now - ts)) as (Hs & Hm & Hh & Em & Eh & Ed).
  unfold timeAgo. cbv zeta. rewrite Hs, Hm, Hh, Ed, Eh, Em.
  pose proof (div_bounds (now - ts) 1000).
  pose proof (div_bounds (now - ts) 60000).
  pose proof (div_bounds (now - ts) 3600000).
  pose proof (div_bounds (now - ts) 86400000).
  repeat split.
  - by destruct (Z.ltb_spec (now - ts) 60000); [|lia].
  - lia.
  - destruct (Z.ltb_spec (now - ts) 60000); [lia|].
    by destruct (Z.ltb_spec (now - ts) 3600000); [|lia].
  - lia.
  - lia.
  - destruct (Z.ltb_spec (now - ts) 60000); [lia|].
    destruct (Z.ltb_spec (now - ts) 3600000); [lia|].
    by destruct (Z.ltb_spec (now - ts) 86400000); [|lia].
  - lia.
  - lia.
  - destruct (Z.ltb_spec (now - ts) 60000); [lia|].
    destruct (Z.ltb_spec (now - ts) 3600000); [lia|].
    by destruct (Z.ltb_spec (now - ts) 86400000); [lia|].
  - lia.
Qed.

(** The call of the module's own sanity test (line 520): five seconds. *)
Lemma timeAgo_units_witness :
  timeAgo 1700000005000 1700000000000 = "5s ago".
Proof.
  refine (proj1 (proj1 (timeAgo_units 1700000005000 1700000000000) _)). lia.
Defined.

(** X5: a timestamp that lies ahead of the clock is shown in seconds with
    a minus sign, however far ahead it lies: the number after the sign is
    the milliseconds ahead divided by 1000 and rounded up, at least 1; no
    other unit is used. *)
Theorem timeAgo_future (now ts : Z) :
  now < ts ->
  timeAgo now ts = "-" +:+ pretty ((ts - now + 999) / 1000) +:+ "s ago"
  /\ 1 <= (ts - now + 999) / 1000.
Proof.
  intros Hlt. destruct (timeAgo_cases (now - ts)) as (Hs & _).
  unfold timeAgo. cbv zeta. rewrite Hs.
  destruct (Z.ltb_spec (now - ts) 60000); [|lia].
  pose proof (div_bounds (now - ts) 1000).
  pose proof (div_bounds (ts - now + 999) 1000).
  assert (E : (now - ts) / 1000 = - ((ts - now + 999) / 1000)) by lia.
  rewrite E. split; [|lia].
  destruct ((ts - now + 999) / 1000) eqn:Hq; [lia| |lia]. reflexivity.
Qed.

(** One day ahead. *)
Lemma timeAgo_future_witness :
  timeAgo 1700000000000 1700086400000 = "-86400s ago" /\ 1 <= 86400.
Proof.
  apply (timeAgo_future 1700000000000 1700086400000). lia.
Defined.

(** ** [categories] *)

Lemma elem_of_first_occurrences (l : list string) (y : string) :
  y ∈ first_occurrences l <-> y ∈ l.
Proof.
  induction l as [|x l IH]; [done|]. simpl.
  rewrite !elem_of_cons, list_elem_of_filter, IH.
  destruct (decide (y = x)); tauto.
Qed.

Lemma NoDup_first_occurrences (l : list string) : NoDup (first_occurrences l).
Proof.
  induction l as [|x l IH]; [constructor|]. simpl. apply NoDup_cons. split.
  - rewrite list_elem_of_filter. intros [H _]. by apply H.
  - by apply NoDup_filter.
Qed.

(** The loop of [categories], from any set built so far. *)
Lemma Set_add_fold (l : list Poll) (seen : list string) :
  fold_left (fun set p => Set_add set (poll_category p)) l seen
  = (seen ++ filter (fun y => y ∉ seen)
                    (first_occurrences (map poll_category l)))%list.
Proof.
  revert seen. induction l as [|p l IH]; intros seen; simpl.
  - symmetry. apply app_nil_r.
  - rewrite IH. unfold Set_add. case_decide as Hin.
    + rewrite filter_cons_False by (intros H; by apply H). f_equal.
      rewrite list_filter_filter. apply list_filter_iff. intros y. simpl.
      split; [|tauto]. intros Hy. split; [done|]. by intros ->.
    + rewrite filter_cons_True by done. rewrite <- app_assoc. simpl.
      do 2 f_equal. rewrite list_filter_filter. apply list_filter_iff.
      intros y. simpl. rewrite elem_of_app, list_elem_of_singleton. tauto.
Qed.

Lemma elem_of_categories (ps : list Poll) (c : string) :
  c ∈ categories ps <-> c = "All" \/ exists p, p ∈ ps /\ poll_category p = c.
Proof.
  unfold categories. rewrite Set_add_fold. simpl.
  rewrite elem_of_cons, list_elem_of_filter, elem_of_first_occurrences,
    list_elem_of_fmap, list_elem_of_singleton.
  split.
  - intros [?|[_ (p & -> & Hp)]]; [by left | right; by exists p].
  - intros [->|(p & Hp & <-)]; [by left|].
    destruct (decide (poll_category p = "All")) as [?|Hne]; [by left|].
    right. split; [done | by exists p].
Qed.

(** X6: the tabs are "All" and then the categories of the polls, each
    once, in the order in which the collection first shows them: "All" is
    the first tab, no tab occurs twice, a text is a tab exactly when it
    is "All" or the category of some poll, and there are at most as many
    tabs as polls, plus one. *)
Theorem categories_first_occurrences (ps : list Poll) :
  categories ps = first_occurrences ("All" :: map poll_category ps)
  /\ (exists rest, categories ps = "All" :: rest)
  /\ NoDup (categories ps)
  /\ (forall c, c ∈ categories ps <->
                c = "All" \/ exists p, p ∈ ps /\ poll_category p = c)
  /\ (length (categories ps) <= S (length ps))%nat.
Proof.
  assert (H : categories ps = first_occurrences ("All" :: map poll_category ps)).
  { unfold categories. rewrite Set_add_fold. simpl. f_equal.
    apply list_filter_iff. intros y. by rewrite list_elem_of_singleton. }
  split; [done|]. split; [rewrite H; by eexists|].
  split; [rewrite H; apply NoDup_first_occurrences|].
  split; [apply elem_of_categories|].
  rewrite H. simpl. apply le_n_S. etrans; [apply length_filter|].
  clear H. induction ps as [|p ps IH]; [done|]. simpl.
  apply le_n_S. etrans; [apply length_filter | done].
Qed.

Lemma filtered_elem (ps : list Poll) (c q : string) (p : Poll) :
  p ∈ filtered ps c q <->
  p ∈ ps /\ (c = "All" \/ poll_category p = c)
  /\ includes (toLowerCase (poll_question p)) (toLowerCase q) = true.
Proof. unfold filtered. rewrite !list_elem_of_filter. tauto. Qed.

(** X7: the tabs and the list agree.  The category of every poll is a
    tab, and with an empty search that tab lists the poll; every tab but
    "All" lists at least one poll when the search is empty; under a tab
    other than "All" every listed poll has the tab's category; and a
    category filter that is not a tab lists nothing, whatever the
    search. *)
Theorem categories_tabs (ps : list Poll) :
  (forall p, p ∈ ps ->
     poll_category p ∈ categories ps /\ p ∈ filtered ps (poll_category p) "")
  /\ (forall c, c ∈ categories ps -> c ≠ "All" -> filtered ps c "" ≠ [])
  /\ (forall c q p, c ≠ "All" -> p ∈ filtered ps c q -> poll_category p = c)
  /\ (forall c, c ∉ categories ps -> forall q, filtered ps c q = []).
Proof.
  split; [|split; [|split]].
  - intros p Hp. split; [apply elem_of_categories; eauto|].
    apply filtered_elem. split; [done|]. split; [by right|]. apply includes_empty.
  - intros c [?|(p & Hp & Hc)]%elem_of_categories Hne; [done|].
    intros Hnil. assert (Hin : p ∈ filtered ps c "").
    { apply filtered_elem. split; [done|]. split; [by right|].
      apply includes_empty. }
    rewrite Hnil in Hin. by apply elem_of_nil in Hin.
  - intros c q p Hne Hin. apply filtered_elem in Hin as (_ & [?|?] & _); done.
  - intros c Hc q. destruct (filtered ps c q) as [|p l] eqn:E; [done|].
    exfalso. assert (Hin : p ∈ filtered ps c q) by (rewrite E; by left).
    apply filtered_elem in Hin as (Hp & [->|Hcat] & _);
      apply Hc, elem_of_categories; eauto.
Qed.

(** ** The search text *)

Lemma string_app_assoc (a b c : string) : (a +:+ b) +:+ c = a +:+ (b +:+ c).
Proof.
  induction a as [|x a IH]; [reflexivity|].
  change (String x ((a +:+ b) +:+ c) = String x (a +:+ (b +:+ c))).
  by rewrite IH.
Qed.

Lemma includes_trans (s q1 q2 : string) :
  includes q2 q1 = true -> includes s q2 = true -> includes s q1 = true.
Proof.
  rewrite !includes_app. intros (l & r & ->) (l' & r' & ->).
  exists (l' +:+ l), (r +:+ r'). by rewrite !string_app_assoc.
Qed.

(** X8: a search text that contains the one before it, compared in lower
    case, as when the user types on, narrows the list: the new list is
    the old list searched with the new text, so it is a sublist of the
    old one and no poll comes back; and it is the same whether the
    category is applied before the first search or after it. *)
Theorem search_narrows (ps : list Poll) (categoryFilter query more : string) :
  includes (toLowerCase more) (toLowerCase query) = true ->
  filtered ps categoryFilter more
  = filtered (filtered ps categoryFilter query) categoryFilter more
  /\ sublist (filtered ps categoryFilter more) (filtered ps categoryFilter query)
  /\ filtered ps categoryFilter more
     = filtered (filtered ps "All" query) categoryFilter more.
Proof.
  intros Hsub.
  assert (H : forall c, c = "All" \/ c = categoryFilter ->
              filtered ps categoryFilter more
              = filtered (filtered ps c query) categoryFilter more).
  { intros c Hc. unfold filtered. rewrite !list_filter_filter.
    apply list_filter_iff. intros p. split; [|tauto].
    intros [Hq Hcat]. repeat split; try done.
    + by apply (includes_trans _ _ (toLowerCase more)).
    + destruct Hc as [->| ->]; [by left | done]. }
  split; [|split].
  - apply H. by right.
  - rewrite (H categoryFilter) by (by right).
    unfold filtered at 1. rewrite list_filter_filter. apply sublist_filter.
  - apply H. by left.
Qed.

Lemma search_narrows_witness :
  filtered [example_poll] "All" "Q?"
  = filtered (filtered [example_poll] "All" "q") "All" "Q?"
  /\ sublist (filtered [example_poll] "All" "Q?") (filtered [example_poll] "All" "q")
  /\ filtered [example_poll] "All" "Q?"
     = filtered (filtered [example_poll] "All" "q") "All" "Q?".
Proof.
  apply (search_narrows [example_poll] "All" "q" "Q?"). reflexivity.
Defined.

(** ** How the handlers compose *)

Lemma vote_poll_id pollId optionId p :
  poll_id (vote_poll pollId optionId p) = poll_id p.
Proof. by destruct (vote_poll_fields pollId optionId p) as (-> & _). Qed.

Lemma vote_poll_option_ids pollId optionId p :
  map opt_id (poll_options (vote_poll pollId optionId p))
  = map opt_id (poll_options p).
Proof.
  rewrite vote_poll_options. case_decide; [|done].
  rewrite map_map. apply map_ext. intros o. apply bump_id.
Qed.

Lemma vote_poll_comm p1 o1 p2 o2 p :
  p1 ≠ p2 ->
  vote_poll p1 o1 (vote_poll p2 o2 p) = vote_poll p2 o2 (vote_poll p1 o1 p).
Proof.
  intros Hne. destruct (decide (poll_id p = p1)) as [H1|H1].
  - rewrite (vote_poll_other p2 o2 p) by congruence.
    rewrite (vote_poll_other p2 o2) by (rewrite vote_poll_id; congruence). done.
  - rewrite (vote_poll_other p1 o1 p) by done.
    rewrite (vote_poll_other p1 o1) by (by rewrite vote_poll_id). done.
Qed.

Lemma filter_vote_poll pollId optionId other (ps : list Poll) :
  filter (fun p => poll_id p ≠ other) (map (vote_poll pollId optionId) ps)
  = map (vote_poll pollId optionId) (filter (fun p => poll_id p ≠ other) ps).
Proof.
  induction ps as [|p ps IH]; [done|]. simpl map.
  destruct (decide (poll_id p = other)) as [Heq|Hne].
  - rewrite !filter_cons_False by (rewrite ?vote_poll_id; tauto). done.
  - rewrite !filter_cons_True by (by rewrite ?vote_poll_id).
    simpl. by f_equal.
Qed.

Lemma filter_dropped_poll pollId optionId (ps : list Poll) :
  filter (fun p => poll_id p ≠ pollId) (map (vote_poll pollId optionId) ps)
  = filter (fun p => poll_id p ≠ pollId) ps.
Proof.
  rewrite filter_vote_poll.
  transitivity (map id (filter (fun p => poll_id p ≠ pollId) ps));
    [|apply map_id].
  apply map_ext_in. intros p Hp. apply list_elem_of_In in Hp.
  apply list_elem_of_filter in Hp as [Hp _]. by apply vote_poll_other.
Qed.

Lemma vote_unfold pollId optionId s :
  vote pollId optionId s
  = if truthy_opt (votes s !! pollId) then s
    else {| polls := map (vote_poll pollId optionId) (polls s);
            votes := <[pollId := optionId]> (votes s) |}.
Proof. unfold vote, vote_queue. by destruct (truthy_opt (votes s !! pollId)). Qed.

Lemma vote_vote_same pollId optionId other s :
  optionId ≠ "" ->
  vote pollId other (vote pollId optionId s) = vote pollId optionId s.
Proof.
  intros Hne. apply vote_blocked. rewrite (vote_unfold pollId optionId s).
  destruct (truthy_opt (votes s !! pollId)) eqn:E; [done|]. simpl.
  rewrite lookup_insert_eq. by destruct optionId.
Qed.

Lemma vote_vote_comm p1 o1 p2 o2 s :
  p1 ≠ p2 ->
  vote p1 o1 (vote p2 o2 s) = vote p2 o2 (vote p1 o1 s).
Proof.
  intros Hne. rewrite (vote_unfold p2 o2 s), (vote_unfold p1 o1 s).
  destruct (truthy_opt (votes s !! p1)) eqn:E1,
           (truthy_opt (votes s !! p2)) eqn:E2.
  - by rewrite vote_blocked, vote_blocked.
  - rewrite vote_blocked by (simpl; by rewrite lookup_insert_ne).
    by rewrite vote_open.
  - rewrite vote_open by done.
    by rewrite vote_blocked by (simpl; by rewrite lookup_insert_ne).
  - rewrite !vote_open by (simpl; by rewrite lookup_insert_ne). simpl.
    f_equal.
    + rewrite !map_map. apply map_ext. intros p. by apply vote_poll_comm.
    + by apply insert_insert_ne.
Qed.

Lemma deletePoll_vote_same pollId optionId s :
  deletePoll pollId (vote pollId optionId s) = deletePoll pollId s.
Proof.
  rewrite !deletePoll_unfold, vote_unfold.
  destruct (truthy_opt (votes s !! pollId)); [done|]. simpl.
  by rewrite filter_dropped_poll, delete_insert_eq.
Qed.

Lemma deletePoll_vote_comm pollId other optionId s :
  pollId ≠ other ->
  deletePoll pollId (vote other optionId s)
  = vote other optionId (deletePoll pollId s).
Proof.
  intros Hne. rewrite (vote_unfold other optionId s).
  rewrite (vote_unfold other optionId (deletePoll pollId s)).
  rewrite !deletePoll_unfold. simpl. rewrite lookup_delete_ne by done.
  destruct (truthy_opt (votes s !! other)); [done|]. simpl.
  by rewrite filter_vote_poll, delete_insert_ne.
Qed.

Lemma deletePoll_deletePoll_comm p1 p2 s :
  deletePoll p1 (deletePoll p2 s) = deletePoll p2 (deletePoll p1 s).
Proof.
  rewrite !deletePoll_unfold. simpl. f_equal.
  - rewrite !list_filter_filter. apply list_filter_iff. tauto.
  - apply delete_delete.
Qed.

Lemma deletePoll_createPoll rnd now input raw s :
  in_options input = Some raw ->
  deletePoll (rnd (length raw)) (createPoll rnd now input s)
  = deletePoll (rnd (length raw)) s.
Proof.
  intros Hraw. unfold createPoll, createPoll_queue. rewrite Hraw.
  destruct (in_question input) as [question|]; [|done].
  destruct (negb (truthy question) || (length raw <? 2)%nat); [done|].
  rewrite !deletePoll_unfold. simpl. f_equal.
  by rewrite filter_cons_False by (simpl; tauto).
Qed.

Lemma filtered_vote pollId optionId (ps : list Poll) c q :
  filtered (map (vote_poll pollId optionId) ps) c q
  = map (vote_poll pollId optionId) (filtered ps c q).
Proof.
  unfold filtered. induction ps as [|p ps IH]; [done|]. simpl map.
  destruct (vote_poll_fields pollId optionId p) as (_ & Hq & _ & Hc & _).
  simpl in Hq, Hc.
  destruct (decide (c = "All" \/ poll_category p = c)) as [Hcat|Hcat].
  - rewrite !(filter_cons_True (fun p => c = "All" \/ poll_category p = c))
      by (by rewrite ?Hc).
    destruct (decide (includes (toLowerCase (poll_question p)) (toLowerCase q) = true))
      as [Hinc|Hinc].
    + rewrite !filter_cons_True by (by rewrite ?Hq). simpl. by f_equal.
    + rewrite !filter_cons_False by (by rewrite ?Hq). done.
  - rewrite !(filter_cons_False (fun p => c = "All" \/ poll_category p = c))
      by (by rewrite ?Hc). done.
Qed.

Lemma categories_vote pollId optionId (ps : list Poll) :
  categories (map (vote_poll pollId optionId) ps) = categories ps.
Proof.
  unfold categories. generalize ["All"].
  induction ps as [|p ps IH]; intros seen; [done|]. simpl.
  destruct (vote_poll_fields pollId optionId p) as (_ & _ & _ & -> & _).
  apply IH.
Qed.

(** X9: the list on the screen under the handlers.  After [vote] the
    list for a category and a search holds the polls it held, at the same
    places: it is the old list, or the old list with [vote]'s change of
    counts applied to each poll; the ids of the listed polls and the tabs
    are as before.  After [deletePoll] it is the old list without the
    polls of the deleted id. *)
Theorem listing_under_handlers (s : State) (pollId optionId : string)
    (categoryFilter query : string) :
  (filtered (polls (vote pollId optionId s)) categoryFilter query
   = filtered (polls s) categoryFilter query
   \/ filtered (polls (vote pollId optionId s)) categoryFilter query
      = map (vote_poll pollId optionId) (filtered (polls s) categoryFilter query))
  /\ map poll_id (filtered (polls (vote pollId optionId s)) categoryFilter query)
     = map poll_id (filtered (polls s) categoryFilter query)
  /\ categories (polls (vote pollId optionId s)) = categories (polls s)
  /\ filtered (polls (deletePoll pollId s)) categoryFilter query
     = filter (fun p => poll_id p ≠ pollId) (filtered (polls s) categoryFilter query).
Proof.
  split; [|split; [|split]].
  - destruct (vote_cases pollId optionId s) as [-> | ->]; [by left|].
    right. apply filtered_vote.
  - destruct (vote_cases pollId optionId s) as [-> | ->]; [done|]. simpl.
    rewrite filtered_vote, map_map. apply map_ext. intros p.
    apply vote_poll_id.
  - destruct (vote_cases pollId optionId s) as [-> | ->]; [done|].
    apply categories_vote.
  - rewrite deletePoll_unfold. simpl. unfold filtered.
    rewrite !list_filter_filter. apply list_filter_iff. tauto.
Qed.

(** X10: handlers on different polls commute.  Two votes on polls of
    different ids give the same state in either order; so do two
    deletions, whatever their ids; and so do a deletion and a vote on a
    poll of another id. *)
Theorem handlers_commute (s : State) (p1 p2 o1 o2 : string) :
  (p1 ≠ p2 -> vote p1 o1 (vote p2 o2 s) = vote p2 o2 (vote p1 o1 s))
  /\ deletePoll p1 (deletePoll p2 s) = deletePoll p2 (deletePoll p1 s)
  /\ (p1 ≠ p2 -> deletePoll p1 (vote p2 o2 s) = vote p2 o2 (deletePoll p1 s)).
Proof.
  split; [apply vote_vote_comm|].
  split; [apply deletePoll_deletePoll_comm | apply deletePoll_vote_comm].
Qed.

Lemma handlers_commute_witness :
  vote "p" "o1" (vote "q" "x" (example_state ∅))
  = vote "q" "x" (vote "p" "o1" (example_state ∅)).
Proof.
  refine (proj1 (handlers_commute (example_state ∅) "p" "q" "o1" "x") _).
  discriminate.
Defined.

(** X11: what a later call undoes or ignores.  After a vote with an
    option id that is not empty, a second vote on the same poll changes
    nothing, whatever option it names.  Deleting a poll right after a
    vote on it gives the state that deleting it at once gives.  Deleting
    the id of a poll that [createPoll] has just made gives the state that
    the deletion gives without the creation, and gives back the state
    before the creation when that id was neither the id of a poll nor a
    key of the ledger. *)
Theorem handlers_absorb (s : State) (pollId optionId other : string)
    (rnd : nat -> string) (now : Z) (input : PartialPoll) (raw : list Option) :
  (optionId ≠ "" ->
   vote pollId other (vote pollId optionId s) = vote pollId optionId s)
  /\ deletePoll pollId (vote pollId optionId s) = deletePoll pollId s
  /\ (in_options input = Some raw ->
      deletePoll (rnd (length raw)) (createPoll rnd now input s)
      = deletePoll (rnd (length raw)) s)
  /\ (in_options input = Some raw ->
      (forall p, p ∈ polls s -> poll_id p ≠ rnd (length raw)) ->
      votes s !! rnd (length raw) = None ->
      deletePoll (rnd (length raw)) (createPoll rnd now input s) = s).
Proof.
  split; [apply vote_vote_same|]. split; [apply deletePoll_vote_same|].
  split; [apply deletePoll_createPoll|].
  intros Hraw Hp Hv. rewrite (deletePoll_createPoll _ _ _ _ _ Hraw).
  apply State_ext;
    [by apply deletePoll_polls_absent | by apply deletePoll_votes_absent].
Qed.

Lemma handlers_absorb_witness :
  vote "p" "o2" (vote "p" "o1" (example_state ∅)) = vote "p" "o1" (example_state ∅).
Proof.
  refine (proj1 (handlers_absorb (example_state ∅) "p" "o1" "o2"
                   (fun _ => "x") 0 (draft "Q" []) []) _).
  discriminate.
Defined.

(** ** Sequences of votes *)

Lemma vote_all_cons b ballots s :
  vote_all (b :: ballots) s = vote_all ballots (vote (fst b) (snd b) s).
Proof. reflexivity. Qed.

(** A poll whose id has a non-empty ledger entry stays as it is, whatever
    votes follow. *)
Lemma vote_all_locked (ballots : list (string * string)) (s : State)
    (i : nat) (p : Poll) :
  Forall (fun b => snd b ≠ "") ballots ->
  truthy_opt (votes s !! poll_id p) = true ->
  polls s !! i = Some p ->
  polls (vote_all ballots s) !! i = Some p.
Proof.
  revert s. induction ballots as [|[q o] ballots IH]; intros s Hall Hlock Hi;
    [done|].
  apply Forall_cons in Hall as [Ho Hall]. rewrite vote_all_cons. simpl fst.
  simpl snd. simpl in Ho. apply IH; [done| |]; rewrite vote_unfold;
    destruct (truthy_opt (votes s !! q)) eqn:E; try done; simpl.
  - destruct (decide (q = poll_id p)) as [->|Hne]; [congruence|].
    by rewrite lookup_insert_ne.
  - rewrite list_lookup_fmap, Hi. simpl. f_equal. apply vote_poll_other.
    intros Heq. congruence.
Qed.

Lemma vote_all_at_most_one (ballots : list (string * string)) (s : State)
    (i : nat) (p : Poll) :
  Forall (fun b => snd b ≠ "") ballots ->
  polls s !! i = Some p ->
  NoDup (map opt_id (poll_options p)) ->
  exists p', polls (vote_all ballots s) !! i = Some p'
             /\ poll_id p' = poll_id p
             /\ totalVotes p <= totalVotes p' <= totalVotes p + 1.
Proof.
  revert s. induction ballots as [|[q o] ballots IH]; intros s Hall Hi Hnd.
  { exists p. split; [done|]. split; [done|]. lia. }
  apply Forall_cons in Hall as [Ho Hall]. simpl in Ho.
  rewrite vote_all_cons. simpl fst. simpl snd.
  destruct (truthy_opt (votes s !! q)) eqn:E.
  { rewrite vote_blocked by done. by apply IH. }
  destruct (decide (poll_id p = q)) as [Hq|Hq].
  - exists (vote_poll q o p). rewrite vote_poll_id. split; [|split; [done|]].
    + apply vote_all_locked; [done| |].
      * rewrite vote_poll_id, Hq, vote_open by done. simpl.
        rewrite lookup_insert_eq. by destruct o.
      * rewrite vote_open by done. simpl. by rewrite list_lookup_fmap, Hi.
    + unfold totalVotes. rewrite vote_poll_options, decide_True by done.
      rewrite sum_votes_bump by done. case_decide; lia.
  - apply IH; [done| |done]. rewrite vote_open by done. simpl.
    rewrite list_lookup_fmap, Hi. simpl. f_equal. by apply vote_poll_other.
Qed.

(** X12: however many votes are cast, on whatever polls and options, a
    poll counts at most one of them.  After any sequence of [vote] calls
    whose option ids are not empty, a poll with pairwise different option
    ids is at its place with its id, and its [totalVotes] is what it was
    or one more; and a poll whose id had a non-empty ledger entry at the
    start is exactly what it was. *)
Theorem votes_count_at_most_once (ballots : list (string * string)) (s : State)
    (i : nat) (p : Poll) :
  Forall (fun b => snd b ≠ "") ballots ->
  polls s !! i = Some p ->
  NoDup (map opt_id (poll_options p)) ->
  (exists p', polls (vote_all ballots s) !! i = Some p'
              /\ poll_id p' = poll_id p
              /\ totalVotes p <= totalVotes p' <= totalVotes p + 1)
  /\ (truthy_opt (votes s !! poll_id p) = true ->
      polls (vote_all ballots s) !! i = Some p).
Proof.
  intros Hall Hi Hnd. split; [by apply vote_all_at_most_one|].
  intros Hlock. by apply vote_all_locked.
Qed.

Lemma votes_count_at_most_once_witness :
  (exists p', polls (vote_all [("p", "o1"); ("p", "o2"); ("p", "o1")]
                              (example_state ∅)) !! 0%nat = Some p'
              /\ poll_id p' = poll_id example_poll
              /\ totalVotes example_poll <= totalVotes p'
                 <= totalVotes example_poll + 1)
  /\ (truthy_opt (votes (example_state ∅) !! poll_id example_poll) = true ->
      polls (vote_all [("p", "o1"); ("p", "o2"); ("p", "o1")] (example_state ∅))
        !! 0%nat = Some example_poll).
Proof.
  apply (votes_count_at_most_once [("p", "o1"); ("p", "o2"); ("p", "o1")]
           (example_state ∅) 0 example_poll).
  - repeat constructor; discriminate.
  - reflexivity.
  - apply (bool_decide_unpack _). vm_compute. exact I.
Defined.

(** ** The ledger under the events of the page *)

Lemma submit_createPoll_grows rnd now f s :
  votes (submit_createPoll rnd now f s) = votes s
  /\ forall p, p ∈ polls s -> p ∈ polls (submit_createPoll rnd now f s).
Proof.
  unfold submit_createPoll. destruct (submit f) as [input|]; [|done].
  unfold createPoll, createPoll_queue.
  destruct (in_question input) as [question|]; [|done].
  destruct (in_options input) as [raw|]; [|done].
  destruct (negb (truthy question) || (length raw <? 2)%nat); [done|].
  simpl. split; [done|]. intros p Hp. by right.
Qed.

Lemma clicked_ledger_consistent (s : State) (e : UiEvent) :
  clicked s e -> ledger_consistent s -> ledger_consistent (ui_next s e).
Proof.
  intros Hc Hs. destruct Hc as [rnd now f|p o Hp Ho Hfree|p Hp]; simpl ui_next.
  - destruct (submit_createPoll_grows rnd now f s) as [Hv Hps].
    intros k v. rewrite Hv. intros Hk.
    destruct (Hs k v Hk) as (q & Hq & Hid & Hin). exists q. auto.
  - rewrite vote_open by done. intros k v. simpl.
    destruct (decide (k = poll_id p)) as [->|Hne].
    + rewrite lookup_insert_eq. intros [= <-].
      exists (vote_poll (poll_id p) (opt_id o) p).
      split; [apply list_elem_of_fmap; eauto|].
      split; [apply vote_poll_id|].
      rewrite vote_poll_option_ids. apply list_elem_of_fmap. eauto.
    + rewrite lookup_insert_ne by done. intros Hk.
      destruct (Hs k v Hk) as (q & Hq & Hid & Hin).
      exists (vote_poll (poll_id p) (opt_id o) q).
      split; [apply list_elem_of_fmap; eauto|].
      split; [by rewrite vote_poll_id|]. by rewrite vote_poll_option_ids.
  - rewrite deletePoll_unfold. intros k v. simpl.
    destruct (decide (k = poll_id p)) as [->|Hne].
    + by rewrite lookup_delete_eq.
    + rewrite lookup_delete_ne by done. intros Hk.
      destruct (Hs k v Hk) as (q & Hq & Hid & Hin). exists q.
      split; [|done]. apply list_elem_of_filter. split; [congruence | done].
Qed.

(** X13: through the controls that the page offers (the form, the vote
    buttons of the listed polls that have no truthy ledger entry, the
    delete entries of the listed polls), the ledger stays about the
    collection: when every ledger entry names a poll of the collection
    and one of that poll's options at the start, so does every entry
    after any sequence of such events; in particular a poll id with a
    truthy entry is the id of a poll of the collection. *)
Theorem clicks_keep_ledger_consistent (s : State) (es : list UiEvent) :
  clicks s es -> ledger_consistent s ->
  ledger_consistent (fold_left ui_next es s)
  /\ forall pollId, truthy_opt (votes (fold_left ui_next es s) !! pollId) = true ->
       exists p, p ∈ polls (fold_left ui_next es s) /\ poll_id p = pollId.
Proof.
  intros Hes Hs.
  assert (H : ledger_consistent (fold_left ui_next es s)).
  { induction Hes as [s|s e es He _ IH]; [done|]. simpl. apply IH.
    by apply clicked_ledger_consistent. }
  split; [done|]. intros k Hk.
  destruct (votes (fold_left ui_next es s) !! k) as [v|] eqn:E; [|done].
  destruct (H k v E) as (p & ? & ? & _). eauto.
Qed.

Lemma clicks_keep_ledger_consistent_witness :
  ledger_consistent
    (fold_left ui_next [UiVote "p" "o1"; UiDelete "p"] (example_state ∅))
  /\ forall pollId,
       truthy_opt (votes (fold_left ui_next [UiVote "p" "o1"; UiDelete "p"]
                                    (example_state ∅)) !! pollId) = true ->
       exists p, p ∈ polls (fold_left ui_next [UiVote "p" "o1"; UiDelete "p"]
                                      (example_state ∅))
                 /\ poll_id p = pollId.
Proof.
  apply (clicks_keep_ledger_consistent (example_state ∅)
           [UiVote "p" "o1"; UiDelete "p"]).
  - apply clicks_cons.
    + apply (clicked_vote (example_state ∅) example_poll
               {| opt_id := "o1"; opt_text := "a"; opt_votes := 0 |});
        [by left | by left | reflexivity].
    + apply clicks_cons; [|apply clicks_nil].
      apply (clicked_delete _ (vote_poll "p" "o1" example_poll)). by left.
  - intros k v Hk. simpl in Hk. by rewrite lookup_empty in Hk.
Defined.

(** ** The option rows of the form *)

Lemma removeOption_from (k i : nat) (o : list string) :
  map snd (filter (fun x => fst x ≠ i) (imap (fun j => pair (k + j)%nat) o))
  = if decide (k <= i)%nat then delete (i - k)%nat o else o.
Proof.
  revert k. induction o as [|x o IH]; intros k; simpl.
  - by case_decide.
  - rewrite (imap_ext _ (fun j => pair (S k + j)%nat))
      by (intros; simpl; f_equal; lia).
    replace (k + 0)%nat with k by lia.
    destruct (decide (k = i)) as [->|Hne].
    + rewrite filter_cons_False by (simpl; tauto).
      rewrite IH. rewrite decide_False by lia. rewrite decide_True by lia.
      by rewrite Nat.sub_diag.
    + rewrite filter_cons_True by done. rewrite map_cons, IH. simpl snd.
      repeat case_decide; try lia; [|done].
      replace (i - k)%nat with (S (i - S k)) by lia. done.
Qed.

(** [removeOption i] deletes the row at the index [i]. *)
Lemma removeOption_delete (i : nat) (o : list string) :
  removeOption i o = delete i o.
Proof.
  unfold removeOption.
  rewrite (imap_ext _ (fun j => pair (0 + j)%nat)) by done.
  rewrite removeOption_from. rewrite decide_True by lia.
  by rewrite Nat.sub_0_r.
Qed.

Lemma updateOption_from (k i : nat) (text : string) (o : list string) :
  imap (fun idx v => if decide ((k + idx)%nat = i) then text else v) o
  = if decide (k <= i)%nat then <[(i - k)%nat := text]> o else o.
Proof.
  revert k. induction o as [|x o IH]; intros k; simpl.
  - by case_decide.
  - rewrite (imap_ext _ (fun idx v => if decide ((S k + idx)%nat = i) then text else v))
      by (intros; simpl; repeat case_decide; (done || lia)).
    rewrite IH. replace (k + 0)%nat with k by lia.
    destruct (decide (k = i)) as [->|Hne].
    + rewrite decide_False by lia. rewrite decide_True by lia.
      by rewrite Nat.sub_diag.
    + repeat case_decide; try lia; [|done].
      replace (i - k)%nat with (S (i - S k)) by lia. done.
Qed.

(** [updateOption i text] replaces the row at the index [i]. *)
Lemma updateOption_insert (i : nat) (text : string) (o : list string) :
  updateOption i text o = <[i := text]> o.
Proof.
  unfold updateOption.
  rewrite (imap_ext _ (fun idx v => if decide ((0 + idx)%nat = i) then text else v))
    by done.
  rewrite updateOption_from. rewrite decide_True by lia.
  by rewrite Nat.sub_0_r.
Qed.

Lemma delete_ge {A : Type} (l : list A) (i : nat) :
  (length l <= i)%nat -> delete i l = l.
Proof.
  revert i. induction l as [|x l IH]; intros i Hi; [done|].
  destruct i as [|i]; simpl in *; [lia|]. f_equal. apply IH. lia.
Qed.

Lemma delete_snoc {A : Type} (l : list A) (x : A) :
  delete (length l) (l ++ [x])%list = l.
Proof. induction l as [|y l IH]; [done|]. simpl. by f_equal. Qed.

(** X14: the three edits of the option rows.  With an index inside the
    rows, [removeOption] leaves one row fewer: the rows before the index
    stay and the rows after it move up by one; and [updateOption] puts
    the text at the index.  With an index outside the rows both change
    nothing.  [updateOption] keeps the number of rows and every row but
    the one at the index.  [addOption] adds one empty row at the end and
    keeps the others, and removing that row again gives the rows back. *)
Theorem form_option_rows (o : list string) (i : nat) (text : string) :
  ((i < length o)%nat ->
     length (removeOption i o) = (length o - 1)%nat
     /\ (forall j, (j < i)%nat -> removeOption i o !! j = o !! j)
     /\ (forall j, (i <= j)%nat -> removeOption i o !! j = o !! S j)
     /\ updateOption i text o !! i = Some text)
  /\ ((length o <= i)%nat -> removeOption i o = o /\ updateOption i text o = o)
  /\ length (updateOption i text o) = length o
  /\ (forall j, j ≠ i -> updateOption i text o !! j = o !! j)
  /\ length (addOption o) = S (length o)
  /\ addOption o !! length o = Some ""
  /\ (forall j, (j < length o)%nat -> addOption o !! j = o !! j)
  /\ removeOption (length o) (addOption o) = o.
Proof.
  rewrite !removeOption_delete, !updateOption_insert. unfold addOption.
  repeat split.
  - apply length_delete. by apply lookup_lt_is_Some.
  - intros j Hj. by apply list_lookup_delete_lt.
  - intros j Hj. by apply list_lookup_delete_ge.
  - by apply list_lookup_insert_eq.
  - by apply delete_ge.
  - by apply list_insert_ge.
  - apply length_insert.
  - intros j Hj. by apply list_lookup_insert_ne.
  - rewrite length_app. simpl. lia.
  - by rewrite lookup_app_r, Nat.sub_diag.
  - intros j Hj. by apply lookup_app_l.
  - apply delete_snoc.
Qed.

Lemma form_option_rows_witness :
  removeOption 5 ["a"; "b"; "c"] = ["a"; "b"; "c"]
  /\ updateOption 5 "x" ["a"; "b"; "c"] = ["a"; "b"; "c"].
Proof.
  refine (proj1 (proj2 (form_option_rows ["a"; "b"; "c"] 5 "x")) _).
  simpl. lia.
Defined.

(** ** The form and "Create poll" *)

Lemma submit_empty_question (f : PollForm) :
  form_question f = "" -> submit f = None.
Proof. intros H. unfold submit. by rewrite H. Qed.

Lemma submit_submit_form (f : PollForm) : submit (submit_form f) = None.
Proof.
  unfold submit_form. destruct (submit f) eqn:E; [|done].
  by apply submit_empty_question.
Qed.

(** X15: in every form that the user can reach from the form as it
    opens, through the fields, a loaded file, the option buttons that are
    on the screen and "Create poll", there are at least two option rows,
    and the image URL and the image preview are the same text. *)
Theorem form_reachable_rows (f : PollForm) :
  form_reachable f ->
  (2 <= length (form_options f))%nat
  /\ form_imageUrl f = form_imagePreview f.
Proof.
  induction 1 as [|f e _ [IHn IHu] He]; [by split; simpl|].
  destruct e; simpl in *; try done.
  - split; [|done]. unfold addOption. rewrite length_app. simpl. lia.
  - split; [|done]. rewrite removeOption_delete.
    rewrite length_delete by (apply lookup_lt_is_Some; lia). lia.
  - split; [|done]. by rewrite updateOption_insert, length_insert.
  - unfold submit_form. by destruct (submit f); simpl.
Qed.

Lemma form_reachable_rows_witness :
  (2 <= length (form_options (form_next (form_next initial_form AddOption)
                                         (RemoveOption 0))))%nat
  /\ form_imageUrl (form_next (form_next initial_form AddOption) (RemoveOption 0))
     = form_imagePreview (form_next (form_next initial_form AddOption)
                                    (RemoveOption 0)).
Proof.
  apply form_reachable_rows.
  apply form_reachable_next; [apply form_reachable_next|].
  - apply form_reachable_initial.
  - exact I.
  - simpl. lia.
Defined.

(** X16: "Create poll" pressed twice creates at most one poll: pressing
    it again right after a press changes neither the form nor the state,
    whatever [uid] and the clock yield.  A press that [submit] rejects,
    the question empty after trimming or fewer than two options left
    after cleaning, leaves the form and the state as they are.  A press
    that it accepts adds one poll and resets the question, the
    description, the option rows and the image fields of the form, and
    keeps its category. *)
Theorem press_create_once (rnd rnd' : nat -> string) (now now' : Z)
    (f : PollForm) (s : State) :
  press_create rnd' now' (press_create rnd now (f, s)) = press_create rnd now (f, s)
  /\ (trim (form_question f) = "" \/ (length (cleaned f) < 2)%nat ->
      press_create rnd now (f, s) = (f, s))
  /\ (trim (form_question f) ≠ "" -> (2 <= length (cleaned f))%nat ->
      fst (press_create rnd now (f, s))
      = {| form_question := ""; form_description := "";
           form_category := form_category f;
           form_options := ["Option A"; "Option B"];
           form_imageUrl := ""; form_imagePreview := "" |}
      /\ length (polls (snd (press_create rnd now (f, s)))) = S (length (polls s))).
Proof.
  unfold press_create. simpl. split; [|split].
  - unfold submit_createPoll at 1. rewrite submit_submit_form.
    f_equal. unfold submit_form at 1. by rewrite submit_submit_form.
  - intros Hbad. unfold submit_form, submit_createPoll.
    destruct (submit_cases f) as [[-> _]|(input & _ & Hq & Hn & _)];
      [reflexivity|].
    destruct Hbad; [done | lia].
  - intros Hq Hn. unfold submit_form, submit_createPoll.
    destruct (submit_cases f) as [[_ Hbad]|(input & -> & _ & _ & Hiq & Hio)].
    { destruct Hbad; [done | lia]. }
    split; [done|]. unfold createPoll, createPoll_queue. rewrite Hiq, Hio.
    assert (Htruthy : truthy (form_question f) = true).
    { destruct (form_question f); [by simpl in Hq | done]. }
    rewrite Htruthy, length_map. simpl negb. simpl orb.
    by destruct (Nat.ltb_spec (length (cleaned f)) 2); [lia|].
Qed.

Lemma press_create_once_witness :
  press_create pretty 0 (initial_form, initial) = (initial_form, initial).
Proof.
  refine (proj1 (proj2 (press_create_once pretty pretty 0 0 initial_form initial)) _).
  by left.
Defined.

Lemma submit_fields (f : PollForm) (input : PartialPoll) :
  submit f = Some input ->
  in_description input = Some (form_description f)
  /\ in_category input = Some (form_category f)
  /\ in_imageUrl input
     = Some (if truthy (form_imageUrl f) then form_imageUrl f
             else form_imagePreview f).
Proof.
  unfold submit.
  destruct (negb (truthy (trim (form_question f))) || (length (cleaned f) <? 2)%nat);
    [done|].
  by intros [= <-].
Qed.

(** X17: the other fields of a poll made through the form.  When
    [submit] accepts the form, the poll that is prepended has as id the
    draw of [uid] that follows the draws for its options, as description
    the trimmed description of the form, as category the category of the
    form as typed, or "General" when that is empty, as [createdAt] the
    clock, and as image the image URL of the form, else its preview, or
    null when both are empty. *)
Theorem submit_createPoll_fields (rnd : nat -> string) (now : Z)
    (f : PollForm) (s : State) :
  trim (form_question f) ≠ "" -> (2 <= length (cleaned f))%nat ->
  exists p,
    polls (submit_createPoll rnd now f s) = p :: polls s
    /\ poll_id p = rnd (length (cleaned f))
    /\ poll_description p = Some (trim (form_description f))
    /\ poll_category p
       = (if decide (form_category f = "") then "General" else form_category f)
    /\ poll_createdAt p = now
    /\ poll_imageUrl p
       = (if decide (form_imageUrl f ≠ "") then Some (form_imageUrl f)
          else if decide (form_imagePreview f ≠ "") then Some (form_imagePreview f)
          else None).
Proof.
  intros Hq Hn. unfold submit_createPoll.
  destruct (submit_cases f) as [[_ Hbad]|(input & Hs & _ & _ & Hiq & Hio)].
  { destruct Hbad; [done | lia]. }
  destruct (submit_fields f input Hs) as (Hd & Hc & Hu). rewrite Hs.
  unfold createPoll, createPoll_queue. rewrite Hiq, Hio.
  assert (Htruthy : truthy (form_question f) = true).
  { destruct (form_question f); [by simpl in Hq | done]. }
  rewrite Htruthy, length_map. simpl negb. simpl orb.
  destruct (Nat.ltb_spec (length (cleaned f)) 2); [lia|].
  eexists. split; [reflexivity|]. simpl. rewrite length_map, Hd, Hc, Hu.
  repeat split.
  - destruct (form_category f); simpl; try case_decide; done.
  - destruct (form_imageUrl f) as [|c u]; simpl.
    + destruct (form_imagePreview f); simpl; try case_decide; done.
    + try case_decide; done.
Qed.

Lemma submit_createPoll_fields_witness :
  exists p,
    polls (submit_createPoll pretty 7 example_form initial) = p :: polls initial
    /\ poll_id p = "2"
    /\ poll_description p = Some ""
    /\ poll_category p = "Politics"
    /\ poll_createdAt p = 7
    /\ poll_imageUrl p = None.
Proof.
  refine (submit_createPoll_fields pretty 7 example_form initial _ _).
  - discriminate.
  - vm_compute. lia.
Defined.

(** ** The seed polls *)

Lemma seedPolls_texts (rnd : nat -> string) (clock : nat -> Z) :
  Forall (fun p => (2 <= length (poll_options p))%nat /\ poll_question p ≠ ""
            /\ Forall (fun o => trim (opt_text o) = opt_text o /\ opt_text o ≠ ""
                                /\ 0 <= opt_votes o) (poll_options p))
    (seedPolls rnd clock).
Proof.
  repeat constructor; simpl; try lia; try done.
Qed.

(** X18: the page that starts from the seed polls keeps its polls well
    formed.  When the ids drawn for the options of each seed poll are
    pairwise different, every seed poll has at least two options with
    pairwise different ids, a question that is not empty, and option
    texts that are trimmed and not empty with counts that are not
    negative; and so has every poll after any sequence of form
    submissions, votes and deletions, with the option ids drawn for one
    new poll pairwise different, whatever the ledger was at the start. *)
Theorem seeded_well_formed (rnd : nat -> string) (clock : nat -> Z)
    (ledger : gmap string string) (es : list UiEvent) :
  Forall (fun p => NoDup (map opt_id (poll_options p))) (seedPolls rnd clock) ->
  Forall fresh_draws es ->
  Forall well_formed (seedPolls rnd clock)
  /\ Forall well_formed
       (polls (fold_left ui_next es
                 {| polls := seedPolls rnd clock; votes := ledger |})).
Proof.
  intros Hids Hes.
  assert (Hseed : Forall well_formed (seedPolls rnd clock)).
  { pose proof (seedPolls_texts rnd clock) as Ht.
    rewrite Forall_forall in Hids, Ht. apply Forall_forall. intros p Hp.
    destruct (Ht p Hp) as (? & ? & ?). unfold well_formed. auto. }
  split; [done|].
  change (seedPolls rnd clock)
    with (polls {| polls := seedPolls rnd clock; votes := ledger |}) in Hseed.
  revert Hseed. generalize {| polls := seedPolls rnd clock; votes := ledger |}.
  induction Hes as [|e es He _ IH]; intros s Hs; [done|]. simpl.
  apply IH. by apply ui_next_well_formed.
Qed.

Lemma seeded_well_formed_witness :
  Forall well_formed (seedPolls pretty example_clock)
  /\ Forall well_formed
       (polls (fold_left ui_next [UiVote "0" "2"; UiDelete "4"]
                 {| polls := seedPolls pretty example_clock; votes := ∅ |})).
Proof.
  apply (seeded_well_formed pretty example_clock ∅ [UiVote "0" "2"; UiDelete "4"]).
  - apply (bool_decide_unpack _). vm_compute. exact I.
  - repeat constructor.
Defined.

(** ** [ensureSeed] *)

Lemma LS_keys_differ : LS_POLLS_KEY ≠ LS_VOTES_KEY.
Proof. discriminate. Qed.

Section EffectsFacts.

Variable JSON_parse : string -> option json.
Variable JSON_stringify : json -> string.
Variable rnd : nat -> string.
Variable clock : nat -> Z.

Lemma ensureSeed_seeds localStorage :
  (exists len, get_length (loadPolls JSON_parse localStorage) = Some len
               /\ ToBoolean len = false) ->
  ensureSeed JSON_parse JSON_stringify rnd clock localStorage
  = Some (json_of_polls (seedPolls rnd clock),
          savePolls JSON_stringify (seedPolls rnd clock) localStorage).
Proof. intros (len & H & Hb). unfold ensureSeed. by rewrite H, Hb. Qed.

Lemma ensureSeed_keeps localStorage :
  (exists len, get_length (loadPolls JSON_parse localStorage) = Some len
               /\ ToBoolean len = true) ->
  ensureSeed JSON_parse JSON_stringify rnd clock localStorage
  = Some (loadPolls JSON_parse localStorage, localStorage).
Proof. intros (len & H & Hb). unfold ensureSeed. by rewrite H, Hb. Qed.

Lemma ensureSeed_result localStorage v ls :
  ensureSeed JSON_parse JSON_stringify rnd clock localStorage = Some (v, ls) ->
  (v = loadPolls JSON_parse localStorage /\ ls = localStorage
   /\ exists len, get_length v = Some len /\ ToBoolean len = true)
  \/ (v = json_of_polls (seedPolls rnd clock)
      /\ ls = savePolls JSON_stringify (seedPolls rnd clock) localStorage).
Proof.
  unfold ensureSeed.
  destruct (get_length (loadPolls JSON_parse localStorage)) as [len|] eqn:H;
    [|done].
  destruct (ToBoolean len) eqn:Hb; intros [= <- <-]; [left | right]; eauto.
Qed.

End EffectsFacts.

(** X19: [ensureSeed] by what the store holds under the polls key.  With
    no text, the empty text, a text that [JSON.parse] throws on, or the
    text of an empty array, of a number or of a boolean, it writes the
    seed polls under the polls key and returns them.  With the text of an
    array that is not empty it returns that array and writes nothing.
    With the text null it throws: it reads [length] of what [loadPolls]
    returned.  Whenever it returns, what it returns is not the empty
    array, and every other key of the store is as before. *)
Theorem ensureSeed_cases (JSON_parse : string -> option json)
    (JSON_stringify : json -> string) (rnd : nat -> string) (clock : nat -> Z)
    (localStorage : gmap string string) :
  ((localStorage !! LS_POLLS_KEY = None
    \/ localStorage !! LS_POLLS_KEY = Some ""
    \/ exists raw, localStorage !! LS_POLLS_KEY = Some raw
         /\ (JSON_parse raw = None \/ JSON_parse raw = Some (JArray [])
             \/ (exists n, JSON_parse raw = Some (JNumber n))
             \/ (exists b, JSON_parse raw = Some (JBool b)))) ->
   ensureSeed JSON_parse JSON_stringify rnd clock localStorage
   = Some (json_of_polls (seedPolls rnd clock),
           savePolls JSON_stringify (seedPolls rnd clock) localStorage))
  /\ (forall raw x xs, localStorage !! LS_POLLS_KEY = Some raw -> raw ≠ "" ->
        JSON_parse raw = Some (JArray (x :: xs)) ->
        ensureSeed JSON_parse JSON_stringify rnd clock localStorage
        = Some (JArray (x :: xs), localStorage))
  /\ (forall raw, localStorage !! LS_POLLS_KEY = Some raw -> raw ≠ "" ->
        JSON_parse raw = Some JNull ->
        ensureSeed JSON_parse JSON_stringify rnd clock localStorage = None)
  /\ (forall v ls,
        ensureSeed JSON_parse JSON_stringify rnd clock localStorage = Some (v, ls) ->
        v ≠ JArray []
        /\ forall key, key ≠ LS_POLLS_KEY -> ls !! key = localStorage !! key).
Proof.
  split; [|split; [|split]].
  - intros H. apply ensureSeed_seeds.
    assert (Hload : loadPolls JSON_parse localStorage = JArray []
                    \/ (exists n, loadPolls JSON_parse localStorage = JNumber n)
                    \/ (exists b, loadPolls JSON_parse localStorage = JBool b)).
    { destruct H as [H|[H|(raw & H & Hp)]].
      - left. by apply loadPolls_absent.
      - left. by apply loadPolls_empty_text.
      - destruct (decide (raw = "")) as [->|Hne];
          [left; by apply loadPolls_empty_text|].
        destruct Hp as [Hp|[Hp|[[n Hp]|[b Hp]]]].
        + left. by apply (loadPolls_throws _ _ raw).
        + left. by apply (loadPolls_parsed _ _ raw).
        + right. left. exists n. by apply (loadPolls_parsed _ _ raw).
        + right. right. exists b. by apply (loadPolls_parsed _ _ raw). }
    destruct Hload as [->|[[n ->]|[b ->]]]; simpl; eauto.
  - intros raw x xs H Hne Hp.
    rewrite ensureSeed_keeps; rewrite (loadPolls_parsed _ _ raw _ H Hne Hp);
      [done|]. simpl. eexists. split; [done|]. simpl.
    by destruct (Z.eqb_spec (Z.of_nat (S (length xs))) 0); [lia|].
  - intros raw H Hne Hp. unfold ensureSeed.
    by rewrite (loadPolls_parsed _ _ raw _ H Hne Hp).
  - intros v ls [(-> & -> & len & Hl & Hb)|[-> ->]]%ensureSeed_result.
    + split; [|done]. intros Hv. rewrite Hv in Hl. by injection Hl as <-.
    + split; [done|]. intros key Hk. unfold savePolls.
      by rewrite lookup_insert_ne.
Qed.

(** The stored text null. *)
Lemma ensureSeed_cases_witness :
  ensureSeed JSON.parse JSON.stringify pretty example_clock
    {[LS_POLLS_KEY := "null"]} = None.
Proof.
  refine (proj1 (proj2 (proj2 (ensureSeed_cases JSON.parse JSON.stringify pretty
            example_clock {[LS_POLLS_KEY := "null"]}))) "null" _ _ _).
  - reflexivity.
  - discriminate.
  - reflexivity.
Defined.

(** ** The store under the effects *)

Section Persistence.

Variable JSON_parse : string -> option json.
Variable JSON_stringify : json -> string.
Variable rnd : nat -> string.
Variable clock : nat -> Z.

Hypothesis stringify_not_empty : forall v, JSON_stringify v ≠ "".
Hypothesis parse_after_stringify :
  forall v, JSON_parse (JSON_stringify v) = Some v.

Lemma loadPolls_in_sync s localStorage :
  in_sync JSON_stringify s localStorage ->
  loadPolls JSON_parse localStorage = json_of_polls (polls s).
Proof.
  intros [Hp _]. by apply (loadPolls_parsed _ _ _ _ Hp).
Qed.

Lemma loadVotes_in_sync s localStorage :
  in_sync JSON_stringify s localStorage ->
  loadVotes JSON_parse localStorage = json_of_votes (votes s).
Proof.
  intros [_ Hv]. by apply (loadVotes_parsed _ _ _ _ Hv).
Qed.

Lemma ensureSeed_in_sync s localStorage :
  in_sync JSON_stringify s localStorage ->
  ensureSeed JSON_parse JSON_stringify rnd clock localStorage
  = match polls s with
    | [] => Some (json_of_polls (seedPolls rnd clock),
                  savePolls JSON_stringify (seedPolls rnd clock) localStorage)
    | _ :: _ => Some (json_of_polls (polls s), localStorage)
    end.
Proof.
  intros Hs. pose proof (loadPolls_in_sync _ _ Hs) as Hl.
  destruct (polls s) as [|p ps] eqn:E.
  - apply ensureSeed_seeds. rewrite Hl. simpl. eauto.
  - rewrite ensureSeed_keeps; rewrite Hl; [done|]. simpl. eexists.
    split; [done|]. simpl.
    by destruct (Z.eqb_spec (Z.of_nat (S (length (map json_of_Poll ps)))) 0);
      [lia|].
Qed.

Lemma mount_effects_in_sync s localStorage :
  in_sync JSON_stringify s localStorage ->
  mount_effects JSON_parse JSON_stringify rnd clock localStorage
  = Some (json_of_polls (match polls s with
                         | [] => seedPolls rnd clock
                         | _ :: _ => polls s
                         end),
          json_of_votes (votes s),
          saveVotes JSON_stringify ∅ (savePolls JSON_stringify [] localStorage)).
Proof.
  intros Hs. unfold mount_effects. rewrite (ensureSeed_in_sync _ _ Hs).
  destruct (polls s) as [|p ps] eqn:E; simpl.
  - rewrite loadVotes_savePolls, (loadVotes_in_sync _ _ Hs).
    unfold savePolls. by rewrite insert_insert_eq.
  - by rewrite (loadVotes_in_sync _ _ Hs).
Qed.

Lemma in_sync_saved s localStorage :
  in_sync JSON_stringify s
    (saveVotes JSON_stringify (votes s)
       (savePolls JSON_stringify (polls s) localStorage)).
Proof.
  unfold in_sync, saveVotes, savePolls. split.
  - rewrite lookup_insert_ne by (symmetry; apply LS_keys_differ).
    apply lookup_insert_eq.
  - apply lookup_insert_eq.
Qed.

Lemma in_sync_persist (previous : State) (queue : list Update) localStorage :
  in_sync JSON_stringify previous localStorage ->
  (queues_setPolls queue = false -> polls (commit previous queue) = polls previous) ->
  (queues_setVotes queue = false -> votes (commit previous queue) = votes previous) ->
  in_sync JSON_stringify (commit previous queue)
    (persist_effects JSON_stringify queue (commit previous queue) localStorage).
Proof.
  intros [Hp Hv] Hkp Hkv. unfold persist_effects, in_sync, saveVotes, savePolls.
  destruct (queues_setPolls queue), (queues_setVotes queue);
    rewrite ?lookup_insert_eq, ?(lookup_insert_ne _ LS_VOTES_KEY LS_POLLS_KEY),
      ?(lookup_insert_ne _ LS_POLLS_KEY LS_VOTES_KEY), ?lookup_insert_eq,
      ?Hkp, ?Hkv by done; done.
Qed.

(** A queue without a call of a setter leaves that part of the state. *)
Lemma commit_untouched (s : State) (queue : list Update) :
  (queues_setPolls queue = false -> polls (commit s queue) = polls s)
  /\ (queues_setVotes queue = false -> votes (commit s queue) = votes s).
Proof.
  unfold commit. revert s. induction queue as [|u queue IH]; intros s; [done|].
  simpl. destruct (IH (apply_update s u)) as [IHp IHv].
  destruct u as [a|a]; simpl in *; split; intros H; try done.
  - by rewrite IHv.
  - by rewrite IHp.
Qed.

Lemma ensureSeed_again localStorage v ls :
  ensureSeed JSON_parse JSON_stringify rnd clock localStorage = Some (v, ls) ->
  ensureSeed JSON_parse JSON_stringify rnd clock ls = Some (v, ls).
Proof.
  intros [(-> & -> & Hlen)|[-> ->]]%ensureSeed_result.
  - by apply ensureSeed_keeps.
  - assert (Hl : loadPolls JSON_parse
                   (savePolls JSON_stringify (seedPolls rnd clock) localStorage)
                 = json_of_polls (seedPolls rnd clock))
      by (by apply loadPolls_savePolls).
    rewrite (ensureSeed_keeps _ _ _ _
               (savePolls JSON_stringify (seedPolls rnd clock) localStorage));
      rewrite Hl; [done|]. simpl. eauto.
Qed.

Lemma running_synced a :
  running JSON_parse JSON_stringify rnd clock a ->
  in_sync JSON_stringify (app_state a) (app_store a).
Proof.
  induction 1 as [localStorage s ls _|a e _ IH]; simpl.
  - apply in_sync_saved.
  - apply in_sync_persist; [done|apply commit_untouched..].
Qed.

End Persistence.

(** X20: [ensureSeed] settles the store.  With a [JSON.parse] that reads
    back what [JSON.stringify] writes, a second call right after a call
    that returned gives the same value and leaves the store that the
    first call left; and that value is what [loadPolls] then returns. *)
Theorem ensureSeed_idempotent (JSON_parse : string -> option json)
    (JSON_stringify : json -> string) (rnd : nat -> string) (clock : nat -> Z)
    (localStorage : gmap string string) (v : json) (ls : gmap string string) :
  (forall x, JSON_stringify x ≠ "") ->
  (forall x, JSON_parse (JSON_stringify x) = Some x) ->
  ensureSeed JSON_parse JSON_stringify rnd clock localStorage = Some (v, ls) ->
  ensureSeed JSON_parse JSON_stringify rnd clock ls = Some (v, ls)
  /\ loadPolls JSON_parse ls = v.
Proof.
  intros Hne Hrt H. split; [by eapply ensureSeed_again|].
  apply ensureSeed_result in H as [(-> & -> & _)|[-> ->]]; [done|].
  by apply loadPolls_savePolls.
Qed.

Lemma ensureSeed_idempotent_witness :
  ensureSeed JSON.parse JSON.stringify pretty example_clock
    (savePolls JSON.stringify (seedPolls pretty example_clock) ∅)
  = Some (json_of_polls (seedPolls pretty example_clock),
          savePolls JSON.stringify (seedPolls pretty example_clock) ∅)
  /\ loadPolls JSON.parse
       (savePolls JSON.stringify (seedPolls pretty example_clock) ∅)
     = json_of_polls (seedPolls pretty example_clock).
Proof.
  apply (ensureSeed_idempotent JSON.parse JSON.stringify pretty example_clock ∅).
  - apply stringify_nonempty.
  - apply parse_stringify.
  - reflexivity.
Defined.

Lemma seeded_app_running :
  running JSON.parse JSON.stringify pretty example_clock seeded_app.
Proof.
  apply (running_mount JSON.parse JSON.stringify pretty example_clock ∅ seeded_state).
  reflexivity.
Qed.

(** X21: the store follows the state.  Once the component is mounted and
    the render after the first one has saved, then after every handled
    event, accepted or not, the polls key of the store holds the text of
    the state's polls and the votes key the text of its ledger. *)
Theorem running_in_sync (JSON_parse : string -> option json)
    (JSON_stringify : json -> string) (rnd : nat -> string) (clock : nat -> Z)
    (a : App) :
  running JSON_parse JSON_stringify rnd clock a ->
  app_store a !! LS_POLLS_KEY
  = Some (JSON_stringify (json_of_polls (polls (app_state a))))
  /\ app_store a !! LS_VOTES_KEY
     = Some (JSON_stringify (json_of_votes (votes (app_state a)))).
Proof. apply running_synced. Qed.

Lemma running_in_sync_witness :
  app_store seeded_app !! LS_POLLS_KEY
  = Some (JSON.stringify (json_of_polls (seedPolls pretty example_clock)))
  /\ app_store seeded_app !! LS_VOTES_KEY
     = Some (JSON.stringify (json_of_votes ∅)).
Proof.
  apply (running_in_sync JSON.parse JSON.stringify pretty example_clock seeded_app).
  apply seeded_app_running.
Defined.

(** X22: loading the page again restores the state, but for an empty
    collection.  With a [JSON.parse] that reads back what
    [JSON.stringify] writes, the effects of a new mount on the store of
    the running component hand [setVotes] the ledger of the state and
    [setPolls] its polls, or the seed polls when it has no poll: deleting
    every poll brings the seed polls back at the next load.  That pass of
    effects leaves the texts of the empty collection and of the empty
    ledger in the store, until the effects of the next render save
    again. *)
Theorem reload_restores (JSON_parse : string -> option json)
    (JSON_stringify : json -> string) (rnd : nat -> string) (clock : nat -> Z)
    (a : App) :
  (forall x, JSON_stringify x ≠ "") ->
  (forall x, JSON_parse (JSON_stringify x) = Some x) ->
  running JSON_parse JSON_stringify rnd clock a ->
  mount_effects JSON_parse JSON_stringify rnd clock (app_store a)
  = Some (json_of_polls (match polls (app_state a) with
                         | [] => seedPolls rnd clock
                         | _ :: _ => polls (app_state a)
                         end),
          json_of_votes (votes (app_state a)),
          saveVotes JSON_stringify ∅ (savePolls JSON_stringify [] (app_store a))).
Proof.
  intros Hne Hrt Hrun. apply mount_effects_in_sync; [done..|].
  by apply (running_synced JSON_parse _ rnd clock).
Qed.

Lemma reload_restores_witness :
  mount_effects JSON.parse JSON.stringify pretty example_clock (app_store seeded_app)
  = Some (json_of_polls (seedPolls pretty example_clock),
          json_of_votes ∅,
          saveVotes JSON.stringify ∅
            (savePolls JSON.stringify [] (app_store seeded_app))).
Proof.
  apply (reload_restores JSON.parse JSON.stringify pretty example_clock seeded_app).
  - apply stringify_nonempty.
  - apply parse_stringify.
  - apply seeded_app_running.
Defined.

(** X23: when the effects of the first render run twice before the next
    render, as they do in a development build under [React.StrictMode],
    the second pass finds the empty collection and the empty ledger that
    the first pass has just saved: whatever the store held, the values
    that reach [setPolls] and [setVotes] last are the seed polls and the
    empty ledger, and the store is left as the first pass left it.  The
    polls and the ledger that were stored are lost. *)
Theorem strict_mount_reseeds (JSON_parse : string -> option json)
    (JSON_stringify : json -> string) (rnd : nat -> string) (clock : nat -> Z)
    (localStorage : gmap string string) (seeded ledger : json)
    (ls : gmap string string) :
  (forall x, JSON_stringify x ≠ "") ->
  (forall x, JSON_parse (JSON_stringify x) = Some x) ->
  mount_effects JSON_parse JSON_stringify rnd clock localStorage
  = Some (seeded, ledger, ls) ->
  strict_mount_effects JSON_parse JSON_stringify rnd clock localStorage
  = Some (json_of_polls (seedPolls rnd clock), json_of_votes ∅, ls).
Proof.
  intros Hne Hrt H. unfold strict_mount_effects. rewrite H.
  unfold mount_effects in H.
  destruct (ensureSeed JSON_parse JSON_stringify rnd clock localStorage)
    as [[x ls1]|]; [|done].
  injection H as _ _ <-.
  rewrite (mount_effects_in_sync _ _ _ _ Hne Hrt initial)
    by apply (in_sync_saved JSON_stringify initial).
  simpl. do 2 f_equal. unfold saveVotes, savePolls.
  rewrite (insert_insert_ne _ LS_POLLS_KEY LS_VOTES_KEY) by apply LS_keys_differ.
  by rewrite !insert_insert_eq.
Qed.

(** A store that holds one poll and one vote. *)
Lemma strict_mount_reseeds_witness :
  strict_mount_effects JSON.parse JSON.stringify pretty example_clock
    (saveVotes JSON.stringify {["p" := "o1"]}
       (savePolls JSON.stringify [example_poll] ∅))
  = Some (json_of_polls (seedPolls pretty example_clock), json_of_votes ∅,
          saveVotes JSON.stringify ∅
            (savePolls JSON.stringify []
               (saveVotes JSON.stringify {["p" := "o1"]}
                  (savePolls JSON.stringify [example_poll] ∅)))).
Proof.
  apply (strict_mount_reseeds JSON.parse JSON.stringify pretty example_clock
           _ (json_of_polls [example_poll]) (json_of_votes {["p" := "o1"]})).
  - apply stringify_nonempty.
  - apply parse_stringify.
  - vm_compute. reflexivity.
Defined.

(** ** The cookie banner *)

Lemma store_write_flag JSON_stringify localStorage w :
  truthy_opt (localStorage !! COOKIE_KEY) = true ->
  truthy_opt (store_write JSON_stringify localStorage w !! COOKIE_KEY) = true.
Proof.
  intros H. destruct w as [ps|ledger|[]]; simpl;
    unfold savePolls, saveVotes, CookieBanner_click;
    rewrite ?lookup_insert_eq, ?lookup_insert_ne by done; done.
Qed.

(** X24: a choice on the cookie banner sticks.  After "Dismiss" or
    "Accept" the banner is not shown at any later mount, whatever the
    program writes to the store in between: it writes polls, ledgers and
    banner choices, and removes nothing.  A choice leaves what
    [loadPolls] and [loadVotes] return as it was; and saving polls and
    ledgers does not make the choice: with no flag in the store the
    banner is shown, however often they were saved. *)
Theorem cookie_choice_sticks (JSON_parse : string -> option json)
    (JSON_stringify : json -> string)
    (c : CookieChoice) (localStorage : gmap string string)
    (writes : list StoreWrite) :
  CookieBanner_show
    (fold_left (store_write JSON_stringify) writes
               (CookieBanner_click c localStorage)) = false
  /\ loadPolls JSON_parse (CookieBanner_click c localStorage)
     = loadPolls JSON_parse localStorage
  /\ loadVotes JSON_parse (CookieBanner_click c localStorage)
     = loadVotes JSON_parse localStorage
  /\ (localStorage !! COOKIE_KEY = None ->
      forall ps ledger,
        CookieBanner_show
          (saveVotes JSON_stringify ledger
             (savePolls JSON_stringify ps localStorage)) = true).
Proof.
  split; [|split; [|split]].
  - unfold CookieBanner_show.
    assert (H : truthy_opt (CookieBanner_click c localStorage !! COOKIE_KEY) = true).
    { unfold CookieBanner_click. rewrite lookup_insert_eq. by destruct c. }
    revert H. generalize (CookieBanner_click c localStorage).
    induction writes as [|w writes IH]; intros ls H; simpl; [by rewrite H|].
    apply IH. by apply store_write_flag.
  - unfold loadPolls, CookieBanner_click. by rewrite lookup_insert_ne.
  - unfold loadVotes, CookieBanner_click. by rewrite lookup_insert_ne.
  - intros H ps ledger. unfold CookieBanner_show, saveVotes, savePolls.
    by rewrite !lookup_insert_ne, H.
Qed.
